(** * bikewatching: time-filtered station traffic on a map

    A shallow embedding of [map.js] (the final, slider-driven version of the
    script) and the properties of its pipeline: the time window filter, the
    per-station traffic aggregation, the two d3 scales, the keyed marker
    join and the slider controller.

    Conventions of the embedding:
    - trip and station counts are [nat]; the cursor is a [Z];
    - a JavaScript number that may be [NaN] is an [option Z] ([None] = NaN);
    - quotients of counts are exact rationals ([Q]) and the square-root
      scale is evaluated over the reals ([R]): IEEE rounding is not
      modelled;
    - a [Date] is its local time value in milliseconds (ECMA-262
      [LocalTime]), or [None] for an invalid date; the setters store
      their result through the host's time zone adjustment, as ECMA-262
      does;
    - d3 ([rollup], [max], [scaleQuantize], [scaleSqrt], the keyed data
      join) is embedded from the behaviour of d3 7.9.0, which the script
      imports. *)

From Stdlib Require Import ZArith QArith Reals Psatz.
From stdpp Require Import gmap strings list fin_maps pretty sorting.

#[local] Set Warnings "-clear-no-such-hyp".

Local Open Scope Z_scope.

(* ===================================================================== *)
(** * Part I: the program                                                 *)
(* ===================================================================== *)

(** ** JavaScript numbers that may be NaN *)

Definition num := option Z.

Definition num_add (a b : num) : num :=
  match a, b with Some x, Some y => Some (x + y) | _, _ => None end.

Definition num_sub (a b : num) : num :=
  match a, b with Some x, Some y => Some (x - y) | _, _ => None end.

Definition num_mul (a b : num) : num :=
  match a, b with Some x, Some y => Some (x * y) | _, _ => None end.

(** [Math.abs] *)
Definition Math_abs (a : num) : num := Z.abs <$> a.

(** [a <= b]; any comparison with NaN is false. *)
Definition num_le (a b : num) : bool :=
  match a, b with Some x, Some y => x <=? y | _, _ => false end.

(** ** Dates (ECMA-262, 21.4.1) *)

Record Date := MkDate { time_value : num }.

Definition msPerMinute : Z := 60000.
Definition msPerHour : Z := 3600000.
Definition msPerDay : Z := 86400000.

Definition Day (t : Z) : Z := t / msPerDay.
Definition HourFromTime (t : Z) : Z := (t / msPerHour) mod 24.
Definition MinFromTime (t : Z) : Z := (t / msPerMinute) mod 60.
Definition SecFromTime (t : Z) : Z := (t / 1000) mod 60.
Definition msFromTime (t : Z) : Z := t mod 1000.

Definition MakeTime (hour min sec ms : Z) : Z :=
  hour * msPerHour + min * msPerMinute + sec * 1000 + ms.
Definition MakeDate (day time : Z) : Z := day * msPerDay + time.

Definition getHours (d : Date) : num := HourFromTime <$> time_value d.
Definition getMinutes (d : Date) : num := MinFromTime <$> time_value d.

(** The host's local time zone adjustment [LocalTZA(t, isUTC)] and the two
    conversions built on it. *)
Definition LocalTime (tza : Z -> bool -> Z) (t : Z) : Z := t + tza t true.
Definition UTC (tza : Z -> bool -> Z) (t : Z) : Z := t - tza t false.

Definition TimeClip (time : Z) : num :=
  if Z.abs time <=? 8640000000000000 then Some time else None.

(** A setter stores [TimeClip(UTC(date))] for the local time [date] it has
    built; read back through [LocalTime], that is the local time value of
    the date afterwards. A local time that a zone transition skips does
    not come back as itself. *)
Definition store_local (tza : Z -> bool -> Z) (date : Z) : num :=
  LocalTime tza <$> TimeClip (UTC tza date).

(** [date.setHours(h, m, s, ms)] *)
Definition setHours (tza : Z -> bool -> Z) (d : Date) (hour min sec ms : Z) : Date :=
  MkDate (match time_value d with
          | Some t => store_local tza (MakeDate (Day t) (MakeTime hour min sec ms))
          | None => None
          end).

(** [date.setMinutes(m)] *)
Definition setMinutes (tza : Z -> bool -> Z) (d : Date) (min : Z) : Date :=
  MkDate (match time_value d with
          | Some t =>
              store_local tza
                (MakeDate (Day t)
                   (MakeTime (HourFromTime t) min (SecFromTime t) (msFromTime t)))
          | None => None
          end).

(** ** Data model *)

Record Station := MkStation {
  short_name : string;
  lon : Q;
  lat : Q
}.

Record Trip := MkTrip {
  start_station_id : string;
  end_station_id : string;
  started_at : Date;
  ended_at : Date
}.

(** [{...station, arrivals, departures, totalTraffic}] *)
Record AnnotatedStation := MkAnnotated {
  station : Station;
  arrivals : nat;
  departures : nat;
  totalTraffic : nat
}.

(** ** Time window filter *)

Definition minutesSinceMidnight (date : Date) : num :=
  num_add (num_mul (getHours date) (Some 60)) (getMinutes date).

Definition filterTripsByTime (allTrips : list Trip) (timeFilter : Z) : list Trip :=
  if decide (timeFilter = -1) then allTrips
  else
    List.filter (fun trip =>
      let start := minutesSinceMidnight (started_at trip) in
      let end_ := minutesSinceMidnight (ended_at trip) in
      num_le (Math_abs (num_sub start (Some timeFilter))) (Some 60)
      || num_le (Math_abs (num_sub end_ (Some timeFilter))) (Some 60))
      allTrips.

(** ** Traffic aggregator *)

(** [d3.group(values, key)]: the values of each key, in input order. *)
Definition d3_group {A} (values : list A) (key : A -> string) : gmap string (list A) :=
  foldl (fun m v => <[key v := default [] (m !! key v) ++ [v]]> m) ∅ values.

(** [d3.rollup(values, reduce, key)] *)
Definition d3_rollup {A B} (values : list A) (reduce : list A -> B) (key : A -> string)
  : gmap string B :=
  reduce <$> d3_group values key.

Definition computeStationTraffic (stations : list Station) (tripsSubset : list Trip)
  : list AnnotatedStation :=
  let departures := d3_rollup tripsSubset (@length Trip) start_station_id in
  let arrivals := d3_rollup tripsSubset (@length Trip) end_station_id in
  map (fun station =>
         let id := short_name station in
         let arrivalsCount := default 0%nat (arrivals !! id) in
         let departuresCount := default 0%nat (departures !! id) in
         MkAnnotated station arrivalsCount departuresCount
                     (arrivalsCount + departuresCount)%nat)
      stations.

(** ** Scale deriver *)

(** [d3.bisectRight(a, x)]: binary search for the insertion point of [x]
    to the right of equal elements; [fuel] bounds the loop. *)
Fixpoint bisect_loop (fuel : nat) (a : list Q) (x : Q) (lo hi : nat) : nat :=
  match fuel with
  | O => lo
  | S fuel' =>
      if (lo <? hi)%nat then
        let mid := ((lo + hi) / 2)%nat in
        if Qle_bool (nth mid a 0%Q) x
        then bisect_loop fuel' a x (mid + 1)%nat hi
        else bisect_loop fuel' a x lo mid
      else lo
  end.

Definition bisectRight (a : list Q) (x : Q) : nat :=
  bisect_loop (length a) a x 0%nat (length a).

(** [d3.scaleQuantize().domain([x0, x1]).range(r)] *)
Record quantize_scale := MkQuantize {
  qz_domain : Q * Q;
  qz_range : list Q
}.

(** The [n = |range| - 1] thresholds [((i+1)*x1 - (i-n)*x0) / (n+1)]. *)
Definition quantize_thresholds (s : quantize_scale) : list Q :=
  let n := (length (qz_range s) - 1)%nat in
  let '(x0, x1) := qz_domain s in
  map (fun i : nat =>
         ((inject_Z (Z.of_nat i + 1) * x1
           - inject_Z (Z.of_nat i - Z.of_nat n) * x0)
          / inject_Z (Z.of_nat n + 1))%Q)
      (seq 0 n).

Definition quantize_apply (s : quantize_scale) (x : Q) : Q :=
  nth (bisectRight (quantize_thresholds s) x) (qz_range s) 0%Q.

Definition stationFlow : Q -> Q :=
  quantize_apply (MkQuantize (0, 1)%Q [0; 1 # 2; 1]%Q).

(** The callback of [.style('--departure-ratio', ...)]. *)
Definition departure_ratio (d : AnnotatedStation) : Q :=
  if (totalTraffic d =? 0)%nat then stationFlow (1 # 2)
  else
    let ratio := (inject_Z (Z.of_nat (departures d))
                  / inject_Z (Z.of_nat (totalTraffic d)))%Q in
    stationFlow ratio.

(** [d3.max(values, accessor)]; [None] is [undefined]. *)
Definition d3_max {A} (values : list A) (valueof : A -> nat) : option nat :=
  foldl (fun max v =>
           let value := valueof v in
           match max with
           | None => Some value
           | Some m => if (m <? value)%nat then Some value else Some m
           end)
        None values.

(** [d3.scaleSqrt().domain([d0, d1]).range([r0, r1])] *)
Record sqrt_scale := MkSqrtScale {
  sq_domain : Z * Z;
  sq_range : Z * Z
}.

Definition transformSqrt (x : R) : R :=
  if Rlt_dec x 0 then (- sqrt (- x))%R else sqrt x.

Definition normalize (a b x : R) : R :=
  if Req_dec_T (b - a) 0 then (1 / 2)%R else ((x - a) / (b - a))%R.

Definition interpolateNumber (a b t : R) : R := (a * (1 - t) + b * t)%R.

(** The two-point continuous scale ([bimap]) after the [sqrt] transform,
    unclamped. *)
Definition sqrt_scale_apply (s : sqrt_scale) (x : R) : R :=
  let d0 := transformSqrt (IZR (fst (sq_domain s))) in
  let d1 := transformSqrt (IZR (snd (sq_domain s))) in
  let r0 := IZR (fst (sq_range s)) in
  let r1 := IZR (snd (sq_range s)) in
  if Rlt_dec d1 d0
  then interpolateNumber r1 r0 (normalize d1 d0 (transformSqrt x))
  else interpolateNumber r0 r1 (normalize d0 d1 (transformSqrt x)).

(** [d3.max(stationsWithTraffic, d => d.totalTraffic) || 1] *)
Definition maxTraffic (stationsWithTraffic : list AnnotatedStation) : nat :=
  match d3_max stationsWithTraffic totalTraffic with
  | None => 1%nat
  | Some O => 1%nat
  | Some m => m
  end.

(** ** Markers *)

(** An SVG [circle] of the overlay: its bound datum, its attributes
    ([None]: not set) and the texts of its [title] children. *)
Record circle := MkCircle {
  c_data : AnnotatedStation;
  c_stroke : option string;
  c_stroke_width : option Z;
  c_fill_opacity : option Q;
  c_r : option R;
  c_departure_ratio : option Q;
  c_titles : list string;
  c_cx : option Q;
  c_cy : option Q
}.

(** The host page and map at the time of a call: the clock, the local
    time zone adjustment, the locale formatter and the viewport projection
    of the map. *)
Record Host := MkHost {
  now : Date;
  LocalTZA : Z -> bool -> Z;
  toLocaleTimeString : Date -> string;
  project : Q -> Q -> Q * Q
}.

(** [new mapboxgl.LngLat(lng, lat)] accepts a latitude from -90 to 90 and
    throws on any other. *)
Definition valid_latitude (st : Station) : Prop := (-90 <= lat st <= 90)%Q.

(** [getCoords] for a station that [LngLat] accepts. *)
Definition getCoords (h : Host) (st : Station) : Q * Q :=
  project h (lon st) (lat st).

(** *** The keyed data join ([selection.data(data, key)], d3 [bindKey]) *)

(** Slot [j] of a join holds either the existing node bound to datum [j]
    (d3's [update[j]]; [i] is the node's position in the selected group)
    or the placeholder of an entering datum (d3's [enter[j]]). *)
Inductive binding :=
| Update (i : nat) (node : circle) (d : AnnotatedStation)
| Enter (d : AnnotatedStation).

Record selection := MkSelection {
  sel_bindings : list binding;
  sel_exit : list (option circle)
}.

Definition key_of (d : AnnotatedStation) : string := short_name (station d).

(** First loop of [bindKey]: index the nodes of the group by key; a node
    whose key is already taken goes to the exit selection. *)
Fixpoint index_nodes (i : nat) (group : list circle)
    (nodeByKeyValue : gmap string (nat * circle))
  : gmap string (nat * circle) * list bool :=
  match group with
  | [] => (nodeByKeyValue, [])
  | node :: rest =>
      let keyValue := key_of (c_data node) in
      match nodeByKeyValue !! keyValue with
      | Some _ =>
          let '(m, dup) := index_nodes (S i) rest nodeByKeyValue in
          (m, true :: dup)
      | None =>
          let '(m, dup) :=
            index_nodes (S i) rest (<[keyValue := (i, node)]> nodeByKeyValue) in
          (m, false :: dup)
      end
  end.

(** Second loop: bind each datum to the node of its key, if one is left. *)
Fixpoint bind_data (data : list AnnotatedStation)
    (nodeByKeyValue : gmap string (nat * circle))
  : list binding * gmap string (nat * circle) :=
  match data with
  | [] => ([], nodeByKeyValue)
  | d :: rest =>
      let keyValue := key_of d in
      match nodeByKeyValue !! keyValue with
      | Some (i, node) =>
          let '(bs, m) := bind_data rest (delete keyValue nodeByKeyValue) in
          (Update i node d :: bs, m)
      | None =>
          let '(bs, m) := bind_data rest nodeByKeyValue in
          (Enter d :: bs, m)
      end
  end.

(** Third loop: a node still indexed under its key was bound to no datum. *)
Definition exit_nodes (group : list circle) (dup : list bool)
    (nodeByKeyValue : gmap string (nat * circle)) : list (option circle) :=
  imap (fun i node =>
          if nth i dup false then Some node
          else match nodeByKeyValue !! key_of (c_data node) with
               | Some (i', _) => if (i' =? i)%nat then Some node else None
               | None => None
               end)
       group.

Definition data_join (group : list circle) (data : list AnnotatedStation)
  : selection :=
  let '(byKey, dup) := index_nodes 0 group ∅ in
  let '(bs, unbound) := bind_data data byKey in
  MkSelection bs (exit_nodes group dup unbound).

Definition enter_size (sel : selection) : nat :=
  length (List.filter (fun b => match b with Enter _ => true | _ => false end)
                      (sel_bindings sel)).

Definition update_size (sel : selection) : nat :=
  length (List.filter (fun b => match b with Update _ _ _ => true | _ => false end)
                      (sel_bindings sel)).

Definition exit_size (sel : selection) : nat :=
  length (List.filter (fun o : option circle => bool_decide (is_Some o))
                      (sel_exit sel)).

(** *** Entering, merging and styling the markers *)

(** [enter().append('circle')] with the three base attributes. *)
Definition append_circle (d : AnnotatedStation) : circle :=
  MkCircle d (Some "white") (Some 1) (Some (6 # 10)%Q) None None [] None None.

(** The node of a slot in [circlesEnter.merge(circles)]; the join has
    rebound an updated node to its new datum. *)
Definition merged_node (b : binding) : circle :=
  match b with
  | Update _ node d =>
      MkCircle d (c_stroke node) (c_stroke_width node) (c_fill_opacity node)
               (c_r node) (c_departure_ratio node) (c_titles node)
               (c_cx node) (c_cy node)
  | Enter d => append_circle d
  end.

(** [.attr('r', ...).style('--departure-ratio', ...)] *)
Definition set_r_and_ratio (radiusScale : sqrt_scale) (c : circle) : circle :=
  let d := c_data c in
  MkCircle d (c_stroke c) (c_stroke_width c) (c_fill_opacity c)
           (Some (sqrt_scale_apply radiusScale (INR (totalTraffic d))))
           (Some (departure_ratio d))
           (c_titles c) (c_cx c) (c_cy c).

(** The template literal of the tooltip. *)
Definition tooltip (d : AnnotatedStation) : string :=
  pretty (totalTraffic d) +:+ " trips (" +:+ pretty (departures d)
  +:+ " departures, " +:+ pretty (arrivals d) +:+ " arrivals)".

(** [select('title').remove()] drops the first [title] child, then
    [append('title').text(...)] adds one at the end. *)
Definition replace_title (c : circle) : circle :=
  MkCircle (c_data c) (c_stroke c) (c_stroke_width c) (c_fill_opacity c)
           (c_r c) (c_departure_ratio c)
           (tail (c_titles c) ++ [tooltip (c_data c)])
           (c_cx c) (c_cy c).

Definition render (radiusScale : sqrt_scale) (b : binding) : circle :=
  replace_title (set_r_and_ratio radiusScale (merged_node b)).

(** *** Document order after the join

    d3 links every entering slot to the next updated slot of the data
    ([enter._next]), and [append] inserts the new node before that node, or
    at the end of the parent when there is none. Updated nodes stay where
    they are and exiting nodes are removed. So the data splits into
    segments, each a run of entering slots closed by an updated slot, and
    the children end up as these segments in the document order of their
    updated nodes, followed by the trailing run of entering slots. *)

Fixpoint segments (mk : binding -> circle) (bs : list binding) (run : list circle)
  : list (nat * list circle) * list circle :=
  match bs with
  | [] => ([], run)
  | Enter d :: rest => segments mk rest (run ++ [mk (Enter d)])
  | Update i node d :: rest =>
      let '(segs, trailing) := segments mk rest [] in
      ((i, run ++ [mk (Update i node d)]) :: segs, trailing)
  end.

Definition seg_le (a b : nat * list circle) : Prop := (a.1 <= b.1)%nat.

#[global] Instance seg_le_dec : RelDecision seg_le.
Proof. intros a b. unfold seg_le. apply _. Defined.

Definition document_order (mk : binding -> circle) (bs : list binding) : list circle :=
  let '(segs, trailing) := segments mk bs [] in
  concat (map snd (merge_sort seg_le segs)) ++ trailing.

(** [updatePositions]: every circle is placed at the projection of its
    datum. *)
Definition set_position (h : Host) (c : circle) : circle :=
  let xy := getCoords h (station (c_data c)) in
  MkCircle (c_data c) (c_stroke c) (c_stroke_width c) (c_fill_opacity c)
           (c_r c) (c_departure_ratio c) (c_titles c)
           (Some (fst xy)) (Some (snd xy)).

Definition updatePositions (h : Host) (dom : list circle) : list circle :=
  map (set_position h) dom.

(** The marker part of [updateScatterPlot]: the join of the circles under
    the [svg] with the annotated stations, the entering, styling and
    removal of circles, and the final [updatePositions]. It returns the
    selection kept in [circles] and the circles under the [svg]
    afterwards. *)
Definition reconcile (h : Host) (radiusScale : sqrt_scale) (dom : list circle)
    (stationsWithTraffic : list AnnotatedStation) : selection * list circle :=
  let join := data_join dom stationsWithTraffic in
  (join,
   updatePositions h (document_order (render radiusScale) (sel_bindings join))).

(** ** Interaction controller *)

(** The module's globals and the part of the page it touches: the circles
    under the [svg] in document order, the slider element ([None]: no such
    element; [Some v]: [Number(timeSlider.value)] is [v]) and the two
    labels. *)
Record state := MkState {
  stations : list Station;
  trips : list Trip;
  timeFilter : Z;
  radiusScale : option sqrt_scale;
  circles : option selection;
  svg : list circle;
  timeSlider : option Z;
  selectedTimeEl : string;
  anyTimeLabel : string
}.

Definition initial_state (slider : option Z) : state :=
  MkState [] [] (-1) None None [] slider "" "".

Definition formatTime (h : Host) (minutes : Z) : string :=
  let date := now h in
  let date := setHours (LocalTZA h) date 0 0 0 0 in
  let date := setMinutes (LocalTZA h) date minutes in
  toLocaleTimeString h date.

Definition updateScatterPlot (h : Host) (timeFilterValue : Z) (s : state) : state :=
  let filteredTrips := filterTripsByTime (trips s) timeFilterValue in
  let stationsWithTraffic := computeStationTraffic (stations s) filteredTrips in
  let maxTraffic := maxTraffic stationsWithTraffic in
  let radiusScale1 :=
    match radiusScale s with
    | None => MkSqrtScale (0, Z.of_nat maxTraffic) (0, 25)
    | Some sc => MkSqrtScale (0, Z.of_nat maxTraffic) (sq_range sc)
    end in
  let radiusScale2 :=
    MkSqrtScale (sq_domain radiusScale1)
                (if decide (timeFilterValue = -1) then (0, 25) else (3, 50)) in
  let '(join, dom) := reconcile h radiusScale2 (svg s) stationsWithTraffic in
  MkState (stations s) (trips s) (timeFilter s)
          (Some radiusScale2) (Some join) dom
          (timeSlider s) (selectedTimeEl s) (anyTimeLabel s).

Definition updateTimeDisplay (h : Host) (s : state) : state :=
  match timeSlider s with
  | None => s
  | Some value =>
      let timeFilter' := value in
      let s1 :=
        if decide (timeFilter' = -1)
        then MkState (stations s) (trips s) timeFilter' (radiusScale s)
                     (circles s) (svg s) (timeSlider s) "" "inline"
        else MkState (stations s) (trips s) timeFilter' (radiusScale s)
                     (circles s) (svg s) (timeSlider s)
                     (formatTime h timeFilter') "none" in
      if bool_decide (stations s1 = []) || bool_decide (trips s1 = [])
      then s1
      else updateScatterPlot h timeFilter' s1
  end.

(** *** Events

    The slider's [input] listener, the two awaited loads of the map's
    [load] handler with the rest of that handler, and the viewport
    listeners it registers at its end. *)
Inductive phase := AwaitStations | AwaitTrips | Loaded | Aborted.

Inductive event :=
| SliderInput (value : Z)
| StationsLoaded (data : list Station)
| TripsLoaded (data : list Trip)
| LoadFailed
| ViewportChanged.

Definition set_slider (value : Z) (s : state) : state :=
  MkState (stations s) (trips s) (timeFilter s) (radiusScale s) (circles s)
          (svg s) (const value <$> timeSlider s)
          (selectedTimeEl s) (anyTimeLabel s).

Definition step (h : Host) (e : event) (ps : phase * state) : phase * state :=
  let '(p, s) := ps in
  match e, p with
  | SliderInput value, _ => (p, updateTimeDisplay h (set_slider value s))
  | StationsLoaded data, AwaitStations =>
      (AwaitTrips,
       MkState data (trips s) (timeFilter s) (radiusScale s) (circles s)
               (svg s) (timeSlider s) (selectedTimeEl s) (anyTimeLabel s))
  | TripsLoaded data, AwaitTrips =>
      let s1 := MkState (stations s) data (timeFilter s) (radiusScale s)
                        (circles s) (svg s) (timeSlider s)
                        (selectedTimeEl s) (anyTimeLabel s) in
      let s2 := updateScatterPlot h (timeFilter s1) s1 in
      (Loaded, updateTimeDisplay h s2)
  | LoadFailed, AwaitStations => (Aborted, s)
  | LoadFailed, AwaitTrips => (Aborted, s)
  | ViewportChanged, Loaded =>
      (p, MkState (stations s) (trips s) (timeFilter s) (radiusScale s)
                  (circles s) (updatePositions h (svg s)) (timeSlider s)
                  (selectedTimeEl s) (anyTimeLabel s))
  | _, _ => (p, s)
  end.

Definition run (evs : list (Host * event)) (ps : phase * state) : phase * state :=
  foldl (fun ps he => step he.1 he.2 ps) ps evs.

(** A concrete host for examples: the clock stands at local midnight of
    day 0, local time is UTC, times print as minutes of the day, the map
    projects a coordinate onto itself. *)
Definition example_host : Host :=
  MkHost (MkDate (Some 0))
         (fun _ _ => 0)
         (fun d => match minutesSinceMidnight d with
                   | Some m => pretty m
                   | None => "Invalid Date"
                   end)
         (fun x y => (x, y)).

(** ** Vocabulary of the statements *)

(** A valid date at [h]:[m] local time on day 0. *)
Definition at_time (h m : Z) : Date := MkDate (Some (MakeTime h m 0 0)).

(** The stations and trips of the end-to-end scenario of the
    specification. *)
Definition example_stations : list Station :=
  [MkStation "A" (-71) 42; MkStation "B" (-711 # 10) (421 # 10)].

Definition example_trips : list Trip :=
  [MkTrip "A" "B" (at_time 8 0) (at_time 8 10);
   MkTrip "B" "A" (at_time 20 0) (at_time 20 5)].


(** A minute-of-day value lies within 60 minutes of the cursor, by plain
    absolute difference; NaN lies within 60 minutes of nothing. *)
Definition within60 (m : num) (cursor : Z) : Prop :=
  exists a, m = Some a /\ Z.abs (a - cursor) <= 60.

(** Number of values whose key is [id]. *)
Definition count_key {A} (key : A -> string) (id : string) (values : list A) : nat :=
  length (filter (fun v => key v = id) values).

Definition known (S : list Station) (id : string) : bool :=
  bool_decide (id ∈ map short_name S).

Definition both_known (S : list Station) (t : Trip) : bool :=
  known S (start_station_id t) && known S (end_station_id t).

Definition one_known (S : list Station) (t : Trip) : bool :=
  xorb (known S (start_station_id t)) (known S (end_station_id t)).

Definition sum_totalTraffic (A : list AnnotatedStation) : nat :=
  foldr (fun d acc => (totalTraffic d + acc)%nat) 0%nat A.

(** The datum of a slot of a join, and the key of a circle. *)
Definition binding_datum (b : binding) : AnnotatedStation :=
  match b with Update _ _ d => d | Enter d => d end.

Definition is_update (b : binding) : bool :=
  match b with Update _ _ _ => true | Enter _ => false end.

Definition node_key (c : circle) : string := key_of (c_data c).

(** A circle has at most one [title] child. *)
Definition one_title (c : circle) : Prop := (length (c_titles c) <= 1)%nat.

(** An annotated station on its own, for examples. *)
Definition example_annotated (id : string) (arr dep : nat) : AnnotatedStation :=
  MkAnnotated (MkStation id 0 0) arr dep (arr + dep).

(** The page once both loads of the scenario have resumed, before the
    first render. *)
Definition example_state : state :=
  MkState example_stations example_trips (-1) None None [] (Some (-1)) "" "".

(** Until the second load has resumed, no trip is there and nothing has
    been rendered. *)
Definition not_rendered (ps : phase * state) : Prop :=
  ps.1 <> Loaded ->
  trips ps.2 = [] /\ radiusScale ps.2 = None /\ circles ps.2 = None
  /\ svg ps.2 = [].

(** The range of the radius scale at a cursor. *)
Definition radius_range (timeFilterValue : Z) : Z * Z :=
  if decide (timeFilterValue = -1) then (0, 25) else (3, 50).

(** A circle as a render leaves it: the three base attributes, a radius
    and a flow level, one tooltip for its datum, and a position. *)
Definition fully_styled (c : circle) : Prop :=
  c_stroke c = Some "white" /\ c_stroke_width c = Some 1
  /\ c_fill_opacity c = Some (6 # 10)%Q
  /\ is_Some (c_r c)
  /\ c_departure_ratio c = Some (departure_ratio (c_data c))
  /\ c_titles c = [tooltip (c_data c)]
  /\ is_Some (c_cx c) /\ is_Some (c_cy c).

(** The circles show the aggregation of the page's data at its cursor. *)
Definition shows_cursor (s : state) : Prop :=
  map c_data (svg s)
  ≡ₚ computeStationTraffic (stations s)
       (filterTripsByTime (trips s) (timeFilter s)).

(** A host on 2024-03-10 at 10:00 local time in a zone that moves its
    clocks from 02:00 to 03:00 on that day (UTC-5 before, UTC-4 after). *)
Definition dst_start_host : Host :=
  let midnight := 19792 * msPerDay in
  MkHost (MkDate (Some (midnight + 10 * msPerHour)))
         (fun t isUTC =>
            if isUTC
            then if t <? midnight + 7 * msPerHour
                 then -5 * msPerHour else -4 * msPerHour
            else if t <? midnight + 3 * msPerHour
                 then -5 * msPerHour else -4 * msPerHour)
         (fun d => match minutesSinceMidnight d with
                   | Some m => pretty m
                   | None => "Invalid Date"
                   end)
         (fun x y => (x, y)).

(** A local time that the host's zone maps to a time value in range and
    back to itself. *)
Definition round_trips (h : Host) (local : Z) : Prop :=
  Z.abs (UTC (LocalTZA h) local) <= 8640000000000000
  /\ LocalTime (LocalTZA h) (UTC (LocalTZA h) local) = local.

(** A fully styled circle of a station that [LngLat] accepts. *)
Definition placed (c : circle) : Prop :=
  fully_styled c /\ valid_latitude (station (c_data c)).

(** The stations of a load event are stations that [LngLat] accepts. *)
Definition valid_event (e : event) : Prop :=
  match e with
  | StationsLoaded data => Forall valid_latitude data
  | _ => True
  end.

(* ===================================================================== *)
(** * Part II: properties                                                 *)
(* ===================================================================== *)

(** ** Time window filter *)

Section Filter.

Lemma HourFromTime_range t : 0 <= HourFromTime t <= 23.
Proof. unfold HourFromTime. pose proof (Z.mod_pos_bound (t / msPerHour) 24). lia. Qed.

Lemma MinFromTime_range t : 0 <= MinFromTime t <= 59.
Proof. unfold MinFromTime. pose proof (Z.mod_pos_bound (t / msPerMinute) 60). lia. Qed.

Lemma minutesSinceMidnight_valid t :
  minutesSinceMidnight (MkDate (Some t)) = Some (HourFromTime t * 60 + MinFromTime t).
Proof. reflexivity. Qed.

Lemma minutesSinceMidnight_invalid : minutesSinceMidnight (MkDate None) = None.
Proof. reflexivity. Qed.

Lemma near_cursor_within60 (m : num) (c : Z) :
  num_le (Math_abs (num_sub m (Some c))) (Some 60) = true <-> within60 m c.
Proof.
  unfold within60. destruct m as [a|]; simpl.
  - rewrite Z.leb_le. split.
    + intros H. exists a. split; [reflexivity | exact H].
    + intros (b & Hb & H). injection Hb as ->. exact H.
  - split; [discriminate | intros (b & Hb & _); discriminate].
Qed.

Lemma List_filter_sublist {A} (p : A -> bool) (l : list A) :
  sublist (List.filter p l) l.
Proof.
  induction l as [|x l IH]; simpl.
  - constructor.
  - destruct (p x); [by apply sublist_skip | by apply sublist_cons].
Qed.

Lemma at_time_minutes h m :
  0 <= h <= 23 -> 0 <= m <= 59 ->
  minutesSinceMidnight (at_time h m) = Some (h * 60 + m).
Proof.
  intros Hh Hm. unfold at_time. rewrite minutesSinceMidnight_valid.
  unfold HourFromTime, MinFromTime, MakeTime, msPerHour, msPerMinute.
  f_equal.
  replace (h * 3600000 + m * 60000 + 0 * 1000 + 0) with (m * 60000 + h * 3600000) by lia.
  rewrite Z.div_add by lia.
  rewrite (Z.div_small (m * 60000)) by lia.
  replace (m * 60000 + h * 3600000) with ((m + 60 * h) * 60000) by lia.
  rewrite Z.div_mul by lia.
  rewrite Z.mod_small by lia.
  replace (m + 60 * h) with (m + h * 60) by lia.
  rewrite Z.mod_add by lia. rewrite Z.mod_small by lia. lia.
Qed.

(** C3. The sentinel cursor returns the trip list itself; for a cursor in
    [0, 1439] the result is a sublist of the trips (same order) holding
    exactly the trips whose start or end minute-of-day is within 60 of the
    cursor by plain absolute difference. There is no wraparound: a trip
    at 23:50 is excluded at cursor 00:05. *)
Theorem filterTripsByTime_spec (T : list Trip) (c : Z) (Hc : 0 <= c <= 1439) :
  filterTripsByTime T (-1) = T
  /\ sublist (filterTripsByTime T c) T
  /\ (forall trip,
        trip ∈ filterTripsByTime T c <->
        trip ∈ T /\
        (within60 (minutesSinceMidnight (started_at trip)) c
         \/ within60 (minutesSinceMidnight (ended_at trip)) c))
  /\ filterTripsByTime [MkTrip "A" "B" (at_time 23 50) (at_time 23 50)] 5 = [].
Proof.
  split; [reflexivity|].
  unfold filterTripsByTime at 1 2.
  destruct (decide (c = -1)) as [->|_]; [lia|].
  split; [apply List_filter_sublist|].
  split; [|reflexivity].
  intros trip. rewrite list_elem_of_In, filter_In, <- list_elem_of_In.
  rewrite orb_true_iff, !near_cursor_within60. reflexivity.
Qed.

(** The example of the specification: a trip from 08:05 to 08:40 is kept
    at cursor 510 and dropped at cursor 1000. *)
Example filterTripsByTime_0805 :
  filterTripsByTime [MkTrip "A" "B" (at_time 8 5) (at_time 8 40)] 510
  = [MkTrip "A" "B" (at_time 8 5) (at_time 8 40)]
  /\ filterTripsByTime [MkTrip "A" "B" (at_time 8 5) (at_time 8 40)] 1000 = [].
Proof. split; reflexivity. Qed.

Lemma filterTripsByTime_spec_witness :
  0 <= 510 <= 1439
  /\ filterTripsByTime example_trips (-1) = example_trips
  /\ sublist (filterTripsByTime example_trips 510) example_trips
  /\ (forall trip,
        trip ∈ filterTripsByTime example_trips 510 <->
        trip ∈ example_trips /\
        (within60 (minutesSinceMidnight (started_at trip)) 510
         \/ within60 (minutesSinceMidnight (ended_at trip)) 510))
  /\ filterTripsByTime [MkTrip "A" "B" (at_time 23 50) (at_time 23 50)] 5 = [].
Proof.
  split; [lia | apply (filterTripsByTime_spec example_trips 510); lia].
Defined.

(** C10. On a valid date [minutesSinceMidnight] is [hours * 60 + minutes],
    a number (not NaN) in [0, 1439]; so for a cursor in [0, 1439] the
    absolute difference the filter computes is a number in [0, 1439]. *)
Theorem minutesSinceMidnight_range (t c : Z) (Hc : 0 <= c <= 1439) :
  exists h m,
    getHours (MkDate (Some t)) = Some h /\ 0 <= h <= 23
    /\ getMinutes (MkDate (Some t)) = Some m /\ 0 <= m <= 59
    /\ minutesSinceMidnight (MkDate (Some t)) = Some (h * 60 + m)
    /\ 0 <= h * 60 + m <= 1439
    /\ exists diff,
         Math_abs (num_sub (minutesSinceMidnight (MkDate (Some t))) (Some c))
         = Some diff
         /\ 0 <= diff <= 1439.
Proof.
  exists (HourFromTime t), (MinFromTime t).
  pose proof (HourFromTime_range t). pose proof (MinFromTime_range t).
  repeat split; try lia.
  exists (Z.abs (HourFromTime t * 60 + MinFromTime t - c)).
  split; [reflexivity | lia].
Qed.

Lemma minutesSinceMidnight_range_witness :
  0 <= 510 <= 1439
  /\ exists h m,
       getHours (at_time 8 5) = Some h /\ 0 <= h <= 23
       /\ getMinutes (at_time 8 5) = Some m /\ 0 <= m <= 59
       /\ minutesSinceMidnight (at_time 8 5) = Some (h * 60 + m)
       /\ 0 <= h * 60 + m <= 1439
       /\ exists diff,
            Math_abs (num_sub (minutesSinceMidnight (at_time 8 5)) (Some 510))
            = Some diff
            /\ 0 <= diff <= 1439.
Proof.
  split; [lia | apply (minutesSinceMidnight_range (MakeTime 8 5 0 0) 510); lia].
Defined.

End Filter.

(** ** Traffic aggregator *)

Section Aggregator.

Context {A : Type} (key : A -> string).

Lemma d3_group_fold (values : list A) (m : gmap string (list A)) (id : string) :
  default [] (foldl (fun m v => <[key v := default [] (m !! key v) ++ [v]]> m)
                    m values !! id)
  = default [] (m !! id) ++ filter (fun v => key v = id) values.
Proof.
  revert m. induction values as [|v values IH]; intros m; simpl.
  - by rewrite app_nil_r.
  - rewrite IH. destruct (decide (key v = id)) as [Heq|Hne].
    + rewrite filter_cons_True by done. rewrite Heq, lookup_insert_eq. simpl.
      by rewrite <- app_assoc.
    + rewrite filter_cons_False by done. by rewrite lookup_insert_ne.
Qed.

Lemma d3_group_lookup (values : list A) (id : string) :
  default [] (d3_group values key !! id) = filter (fun v => key v = id) values.
Proof. unfold d3_group. by rewrite d3_group_fold, lookup_empty. Qed.

(** [rollup.get(id) ?? 0] with [v => v.length] counts the values of key
    [id]. *)
Lemma d3_rollup_count (values : list A) (id : string) :
  default 0%nat (d3_rollup values (@length A) key !! id) = count_key key id values.
Proof.
  unfold d3_rollup, count_key. rewrite lookup_fmap, <- d3_group_lookup.
  by destruct (d3_group values key !! id).
Qed.

Lemma count_key_absent (values : list A) (id : string) :
  (forall v, v ∈ values -> key v <> id) -> count_key key id values = 0%nat.
Proof.
  intros H. unfold count_key. induction values as [|v values IH]; [done|].
  rewrite filter_cons_False by (apply H; left).
  apply IH. intros w Hw. apply H. by right.
Qed.

(** Over stations with distinct keys, the per-station counts add up to
    the number of values whose key is a known station. *)
Lemma sum_count_key (S : list Station) (values : list A) :
  NoDup (map short_name S) ->
  foldr (fun st acc => (count_key key (short_name st) values + acc)%nat) 0%nat S
  = length (filter (fun v => known S (key v)) values).
Proof.
  intros HS. induction S as [|st S IH]; simpl.
  - induction values as [|v values IHv]; [done|].
    rewrite filter_cons_False; [done | tauto].
  - inversion HS as [|? ? Hnotin HS']; subst. rewrite IH by done. clear IH.
    unfold count_key. induction values as [|v values IHv]; [done|].
    assert (Hk : known (st :: S) (key v)
                 <-> key v = short_name st \/ known S (key v)).
    { unfold known. simpl. rewrite !bool_decide_spec, elem_of_cons. tauto. }
    destruct (decide (key v = short_name st)) as [Heq|Hne].
    + rewrite (filter_cons_True (fun v => key v = short_name st)) by done.
      rewrite (filter_cons_True (fun v => known (st :: S) (key v))) by tauto.
      rewrite (filter_cons_False (fun v => known S (key v))).
      * simpl. lia.
      * unfold known. rewrite bool_decide_spec, Heq. exact Hnotin.
    + rewrite (filter_cons_False (fun v => key v = short_name st)) by done.
      destruct (decide (known S (key v))) as [Hkn|Hkn].
      * rewrite (filter_cons_True (fun v => known (st :: S) (key v))) by tauto.
        rewrite (filter_cons_True (fun v => known S (key v))) by done.
        simpl. lia.
      * rewrite (filter_cons_False (fun v => known (st :: S) (key v))) by tauto.
        rewrite (filter_cons_False (fun v => known S (key v))) by done.
        exact IHv.
Qed.

End Aggregator.

Section AggregatorOutput.

(** The entry the aggregator emits for a station. *)
Lemma computeStationTraffic_map (S : list Station) (T : list Trip) :
  computeStationTraffic S T
  = map (fun st =>
           MkAnnotated st
             (count_key end_station_id (short_name st) T)
             (count_key start_station_id (short_name st) T)
             (count_key end_station_id (short_name st) T
              + count_key start_station_id (short_name st) T)%nat) S.
Proof.
  unfold computeStationTraffic. apply map_ext. intros st.
  by rewrite !d3_rollup_count.
Qed.

Lemma computeStationTraffic_station (S : list Station) (T : list Trip) :
  map station (computeStationTraffic S T) = S.
Proof.
  rewrite computeStationTraffic_map, map_map. simpl. apply map_id.
Qed.

Lemma computeStationTraffic_keys (S : list Station) (T : list Trip) :
  map key_of (computeStationTraffic S T) = map short_name S.
Proof.
  rewrite <- (computeStationTraffic_station S T) at 2. by rewrite map_map.
Qed.

Lemma computeStationTraffic_length (S : list Station) (T : list Trip) :
  length (computeStationTraffic S T) = length S.
Proof. unfold computeStationTraffic. apply length_map. Qed.

Lemma known_split (S : list Station) (T : list Trip) :
  (length (filter (fun t => known S (end_station_id t)) T)
   + length (filter (fun t => known S (start_station_id t)) T))%nat
  = (2 * length (filter (fun t => both_known S t) T)
     + length (filter (fun t => one_known S t) T))%nat.
Proof.
  induction T as [|t T IH]; [done|].
  rewrite !filter_cons. unfold both_known, one_known in *.
  destruct (known S (start_station_id t)), (known S (end_station_id t));
    repeat case_decide; simpl in *; try tauto; lia.
Qed.

Lemma sum_totalTraffic_split (S : list Station) (T : list Trip) :
  sum_totalTraffic (computeStationTraffic S T)
  = (foldr (fun st acc => (count_key end_station_id (short_name st) T + acc)%nat)
           0%nat S
     + foldr (fun st acc => (count_key start_station_id (short_name st) T + acc)%nat)
             0%nat S)%nat.
Proof.
  rewrite computeStationTraffic_map. unfold sum_totalTraffic.
  induction S as [|st S IH]; simpl; [done|]. rewrite IH. lia.
Qed.

(** C1. The aggregator returns one entry per station of the list, at the
    station's position: as many entries as stations, the stations of the
    entries are the station list itself (so entries repeat a station or a
    key only where the list does), each entry carries the number of
    trips ending and starting at its station and their sum, and a station
    that no trip mentions gets zeros. *)
Theorem computeStationTraffic_total (S : list Station) (T : list Trip) :
  length (computeStationTraffic S T) = length S
  /\ map station (computeStationTraffic S T) = S
  /\ map key_of (computeStationTraffic S T) = map short_name S
  /\ (NoDup (map short_name S) <-> NoDup (map key_of (computeStationTraffic S T)))
  /\ Forall (fun d =>
               arrivals d = count_key end_station_id (key_of d) T
               /\ departures d = count_key start_station_id (key_of d) T
               /\ totalTraffic d = (arrivals d + departures d)%nat
               /\ ((forall t, t ∈ T -> start_station_id t <> key_of d
                                       /\ end_station_id t <> key_of d) ->
                   arrivals d = 0%nat /\ departures d = 0%nat
                   /\ totalTraffic d = 0%nat))
            (computeStationTraffic S T).
Proof.
  split; [apply computeStationTraffic_length|].
  split; [apply computeStationTraffic_station|].
  split; [apply computeStationTraffic_keys|].
  split; [by rewrite computeStationTraffic_keys|].
  rewrite computeStationTraffic_map, Forall_map. apply Forall_forall.
  intros st _. unfold key_of. simpl. repeat split; try done.
  all: try (rewrite !count_key_absent; [done|intros t Ht; by apply H..]).
  all: apply count_key_absent; intros t Ht; by apply H.
Qed.

(** C2. For stations with pairwise distinct keys, the total traffic of
    the output is twice the number of trips with both endpoints known plus
    the number of trips with exactly one endpoint known; an id that is not
    a station key has no entry in the output. *)
Theorem computeStationTraffic_conservation (S : list Station) (T : list Trip)
    (HS : NoDup (map short_name S)) :
  sum_totalTraffic (computeStationTraffic S T)
  = (2 * length (filter (fun t => both_known S t) T)
     + length (filter (fun t => one_known S t) T))%nat
  /\ (forall id, id ∉ map short_name S ->
                 forall d, d ∈ computeStationTraffic S T -> key_of d <> id).
Proof.
  split.
  - rewrite sum_totalTraffic_split, !sum_count_key by done. apply known_split.
  - intros id Hid d Hd Heq. apply Hid.
    rewrite <- Heq, <- (computeStationTraffic_keys S T).
    apply list_elem_of_In, in_map, list_elem_of_In, Hd.
Qed.

Lemma example_stations_NoDup : NoDup (map short_name example_stations).
Proof. apply (bool_decide_unpack _). vm_compute. exact I. Qed.

Lemma computeStationTraffic_conservation_witness :
  NoDup (map short_name example_stations)
  /\ sum_totalTraffic (computeStationTraffic example_stations example_trips)
     = (2 * length (filter (fun t => both_known example_stations t) example_trips)
        + length (filter (fun t => one_known example_stations t) example_trips))%nat
  /\ (forall id, id ∉ map short_name example_stations ->
                 forall d, d ∈ computeStationTraffic example_stations example_trips ->
                           key_of d <> id).
Proof.
  split; [exact example_stations_NoDup|].
  apply (computeStationTraffic_conservation example_stations example_trips).
  exact example_stations_NoDup.
Defined.

(** The end-to-end scenario of the specification. *)
Example computeStationTraffic_scenario :
  computeStationTraffic example_stations (filterTripsByTime example_trips (-1))
  = [MkAnnotated (MkStation "A" (-71) 42) 1 1 2;
     MkAnnotated (MkStation "B" (-711 # 10) (421 # 10)) 1 1 2]
  /\ computeStationTraffic example_stations (filterTripsByTime example_trips 480)
     = [MkAnnotated (MkStation "A" (-71) 42) 0 1 1;
        MkAnnotated (MkStation "B" (-711 # 10) (421 # 10)) 1 0 1].
Proof. split; vm_compute; reflexivity. Qed.

(** A trip between unknown stations counts nowhere. *)
Example computeStationTraffic_unknown :
  computeStationTraffic example_stations [MkTrip "X" "Y" (at_time 8 0) (at_time 8 10)]
  = [MkAnnotated (MkStation "A" (-71) 42) 0 0 0;
     MkAnnotated (MkStation "B" (-711 # 10) (421 # 10)) 0 0 0].
Proof. vm_compute. reflexivity. Qed.

End AggregatorOutput.

(** ** Scale deriver *)

Section FlowScale.

Lemma stationFlow_thresholds :
  quantize_thresholds (MkQuantize (0, 1)%Q [0; 1 # 2; 1]%Q) = [1 # 3; 2 # 3]%Q.
Proof. reflexivity. Qed.

(** The three buckets of [stationFlow]: a value on a threshold belongs to
    the bucket above it. *)
Lemma stationFlow_buckets (x : Q) :
  ((x < 1 # 3)%Q -> stationFlow x = 0%Q)
  /\ ((1 # 3 <= x)%Q -> (x < 2 # 3)%Q -> stationFlow x = (1 # 2)%Q)
  /\ ((2 # 3 <= x)%Q -> stationFlow x = 1%Q).
Proof.
  unfold stationFlow, quantize_apply. rewrite stationFlow_thresholds.
  unfold bisectRight. simpl.
  destruct (Qle_bool (2 # 3) x) eqn:H2; simpl.
  - apply Qle_bool_iff in H2. repeat split; intros; try reflexivity; lra.
  - assert (x < 2 # 3)%Q as H2'.
    { apply Qnot_le_lt. intros H. apply Qle_bool_iff in H. congruence. }
    destruct (Qle_bool (1 # 3) x) eqn:H1; simpl.
    + apply Qle_bool_iff in H1. repeat split; intros; try reflexivity; lra.
    + assert (x < 1 # 3)%Q as H1'.
      { apply Qnot_le_lt. intros H. apply Qle_bool_iff in H. congruence. }
      repeat split; intros; try reflexivity; lra.
Qed.

Lemma count_ratio_range (dep total : nat) :
  (0 < total)%nat -> (dep <= total)%nat ->
  (0 <= inject_Z (Z.of_nat dep) / inject_Z (Z.of_nat total) <= 1)%Q.
Proof.
  intros Ht Hd.
  assert (0 < inject_Z (Z.of_nat total))%Q as Hpos.
  { change 0%Q with (inject_Z 0). rewrite <- Zlt_Qlt. lia. }
  assert (0 <= inject_Z (Z.of_nat dep))%Q as Hd0.
  { change 0%Q with (inject_Z 0). rewrite <- Zle_Qle. lia. }
  assert (inject_Z (Z.of_nat dep) <= inject_Z (Z.of_nat total))%Q as Hle.
  { rewrite <- Zle_Qle. lia. }
  split.
  - apply Qle_shift_div_l; [exact Hpos | lra].
  - apply Qle_shift_div_r; [exact Hpos | lra].
Qed.

(** C4. A station without traffic gets the middle level 1/2. Otherwise
    the level is that of [ratio = departures / totalTraffic], which lies
    in [0, 1]: 0 below 1/3, 1/2 from 1/3 (included) up to 2/3 (excluded),
    1 from 2/3 (included) on; the level is always one of the three. *)
Theorem departure_ratio_buckets (d : AnnotatedStation)
    (Hd : totalTraffic d = (arrivals d + departures d)%nat) :
  (totalTraffic d = 0%nat -> departure_ratio d = (1 # 2)%Q)
  /\ (totalTraffic d <> 0%nat ->
      let ratio := (inject_Z (Z.of_nat (departures d))
                    / inject_Z (Z.of_nat (totalTraffic d)))%Q in
      (0 <= ratio <= 1)%Q
      /\ ((ratio < 1 # 3)%Q -> departure_ratio d = 0%Q)
      /\ ((1 # 3 <= ratio)%Q -> (ratio < 2 # 3)%Q -> departure_ratio d = (1 # 2)%Q)
      /\ ((2 # 3 <= ratio)%Q -> departure_ratio d = 1%Q))
  /\ (departure_ratio d = 0%Q \/ departure_ratio d = (1 # 2)%Q
      \/ departure_ratio d = 1%Q).
Proof.
  unfold departure_ratio.
  destruct (Nat.eqb_spec (totalTraffic d) 0) as [H0|H0].
  - split; [reflexivity|]. split; [congruence|]. right; left. reflexivity.
  - split; [congruence|].
    set (ratio := (inject_Z (Z.of_nat (departures d))
                   / inject_Z (Z.of_nat (totalTraffic d)))%Q).
    destruct (stationFlow_buckets ratio) as (Hlo & Hmid & Hhi).
    split.
    + intros _. simpl. fold ratio. split; [|tauto].
      apply count_ratio_range; lia.
    + destruct (Qlt_le_dec ratio (1 # 3)) as [H1|H1]; [left; auto|].
      destruct (Qlt_le_dec ratio (2 # 3)) as [H2|H2]; [right; left; auto|].
      right; right; auto.
Qed.

Lemma departure_ratio_buckets_witness :
  let d := MkAnnotated (MkStation "A" 0 0) 2 1 3 in
  totalTraffic d = (arrivals d + departures d)%nat
  /\ (totalTraffic d = 0%nat -> departure_ratio d = (1 # 2)%Q)
  /\ (totalTraffic d <> 0%nat ->
      let ratio := (inject_Z (Z.of_nat (departures d))
                    / inject_Z (Z.of_nat (totalTraffic d)))%Q in
      (0 <= ratio <= 1)%Q
      /\ ((ratio < 1 # 3)%Q -> departure_ratio d = 0%Q)
      /\ ((1 # 3 <= ratio)%Q -> (ratio < 2 # 3)%Q -> departure_ratio d = (1 # 2)%Q)
      /\ ((2 # 3 <= ratio)%Q -> departure_ratio d = 1%Q))
  /\ (departure_ratio d = 0%Q \/ departure_ratio d = (1 # 2)%Q
      \/ departure_ratio d = 1%Q).
Proof.
  split; [reflexivity|].
  apply (departure_ratio_buckets (MkAnnotated (MkStation "A" 0 0) 2 1 3)).
  reflexivity.
Defined.

(** The boundary cases of the specification. *)
Example stationFlow_examples :
  stationFlow (2 # 10) = 0%Q /\ stationFlow (1 # 3) = (1 # 2)%Q
  /\ stationFlow (1 # 2) = (1 # 2)%Q /\ stationFlow (2 # 3) = 1%Q
  /\ stationFlow (9 # 10) = 1%Q.
Proof. repeat split; reflexivity. Qed.

End FlowScale.

Section RadiusScale.

Lemma d3_max_fold {A} (valueof : A -> nat) (values : list A) (acc : option nat) :
  match foldl (fun max v =>
                 let value := valueof v in
                 match max with
                 | None => Some value
                 | Some m => if (m <? value)%nat then Some value else Some m
                 end) acc values with
  | None => acc = None /\ values = []
  | Some m =>
      (forall a, acc = Some a -> (a <= m)%nat)
      /\ Forall (fun v => (valueof v <= m)%nat) values
      /\ (acc = Some m \/ exists v, v ∈ values /\ valueof v = m)
  end.
Proof.
  revert acc. induction values as [|v values IH]; intros acc; simpl.
  - destruct acc as [a|]; [|done].
    split; [intros ? [= ->]; lia|]. split; [constructor | by left].
  - match goal with |- context [foldl ?f ?a values] => specialize (IH a) end.
    destruct (foldl _ _ values) as [m|].
    + destruct IH as (Hacc & Hall & Hwit). destruct acc as [a|].
      * destruct (Nat.ltb_spec a (valueof v)).
        -- specialize (Hacc _ eq_refl). split; [intros ? [= <-]; lia|].
           split; [by constructor|].
           destruct Hwit as [[= <-]|(w & Hw & Hm)].
           ++ right. exists v. split; [left | done].
           ++ right. exists w. split; [by right | done].
        -- specialize (Hacc _ eq_refl). split; [intros ? [= <-]; lia|].
           split; [constructor; [lia | done]|].
           destruct Hwit as [[= <-]|(w & Hw & Hm)]; [by left|].
           right. exists w. split; [by right | done].
      * specialize (Hacc _ eq_refl). split; [done|].
        split; [by constructor|].
        destruct Hwit as [[= <-]|(w & Hw & Hm)].
        -- right. exists v. split; [left | done].
        -- right. exists w. split; [by right | done].
    + destruct IH as [Hacc _]. by destruct acc as [a|]; [destruct (a <? valueof v)%nat|].
Qed.

(** [maxTraffic] is the largest total of the set, or 1 when the set is
    empty or every total is 0. *)
Lemma maxTraffic_spec (A : list AnnotatedStation) :
  (1 <= maxTraffic A)%nat
  /\ Forall (fun d => (totalTraffic d <= maxTraffic A)%nat) A
  /\ ((maxTraffic A = 1%nat /\ Forall (fun d => totalTraffic d = 0%nat) A)
      \/ exists d, d ∈ A /\ totalTraffic d = maxTraffic A).
Proof.
  unfold maxTraffic, d3_max.
  pose proof (d3_max_fold totalTraffic A None) as H.
  destruct (foldl _ None A) as [m|].
  - destruct H as (_ & Hall & [Habs|Hwit]); [done|].
    destruct m as [|m].
    + split; [lia|]. split.
      * eapply Forall_impl; [exact Hall|]. simpl. intros; lia.
      * left. split; [done|]. eapply Forall_impl; [exact Hall|]. simpl. intros; lia.
    + split; [lia|]. split; [done|]. by right.
  - destruct H as [_ ->]. split; [lia|]. split; [constructor|].
    left. split; [done | constructor].
Qed.

Lemma transformSqrt_nonneg (x : R) : (0 <= x)%R -> transformSqrt x = sqrt x.
Proof. intros H. unfold transformSqrt. destruct (Rlt_dec x 0); [lra | done]. Qed.

(** The scale on the domain [[0, m]], [m >= 1]: the range is interpolated
    at [sqrt x / sqrt m]. *)
Lemma sqrt_scale_apply_eq (m : nat) (r0 r1 : Z) (x : R) :
  (1 <= m)%nat -> (0 <= x)%R ->
  sqrt_scale_apply (MkSqrtScale (0, Z.of_nat m) (r0, r1)) x
  = (IZR r0 * (1 - sqrt x / sqrt (INR m)) + IZR r1 * (sqrt x / sqrt (INR m)))%R.
Proof.
  intros Hm Hx. unfold sqrt_scale_apply. simpl.
  rewrite <- INR_IZR_INZ.
  assert (1 <= INR m)%R as Hm1 by (change 1%R with (INR 1); by apply le_INR).
  rewrite !transformSqrt_nonneg by lra. rewrite sqrt_0.
  assert (0 < sqrt (INR m))%R as Hs by (apply sqrt_lt_R0; lra).
  destruct (Rlt_dec (sqrt (INR m)) 0); [lra|].
  unfold normalize, interpolateNumber.
  destruct (Req_dec_T (sqrt (INR m) - 0) 0); [lra|].
  rewrite !Rminus_0_r. reflexivity.
Qed.

Lemma sqrt_scale_monotone (m : nat) (r0 r1 : Z) (x y : R) :
  (1 <= m)%nat -> r0 <= r1 -> (0 <= x)%R -> (x <= y)%R ->
  let sc := MkSqrtScale (0, Z.of_nat m) (r0, r1) in
  (sqrt_scale_apply sc x <= sqrt_scale_apply sc y)%R.
Proof.
  intros Hm Hr Hx Hxy sc. unfold sc. rewrite !sqrt_scale_apply_eq by (done || lra).
  assert (1 <= INR m)%R as Hm1 by (change 1%R with (INR 1); by apply le_INR).
  assert (0 < sqrt (INR m))%R as Hs by (apply sqrt_lt_R0; lra).
  assert (sqrt x / sqrt (INR m) <= sqrt y / sqrt (INR m))%R as Ht.
  { apply Rmult_le_compat_r; [left; by apply Rinv_0_lt_compat|].
    by apply sqrt_le_1_alt. }
  apply IZR_le in Hr. nra.
Qed.

Lemma updateScatterPlot_radiusScale (h : Host) (timeFilterValue : Z) (s : state) :
  radiusScale (updateScatterPlot h timeFilterValue s)
  = Some (MkSqrtScale
            (0, Z.of_nat (maxTraffic
                            (computeStationTraffic (stations s)
                               (filterTripsByTime (trips s) timeFilterValue))))
            (if decide (timeFilterValue = -1) then (0, 25) else (3, 50))).
Proof. unfold updateScatterPlot. simpl. by destruct (radiusScale s). Qed.

(** C5. After a render the radius scale is a square-root scale: it has
    domain [[0, m]], where [m] is the largest total traffic of the
    annotated set, or 1 when that is 0 or the set is empty; its range
    [[lo, hi]] is [[0, 25]] for the sentinel cursor and [[3, 50]]
    otherwise; and it sends every non-negative [x] to
    [lo + (hi - lo) * sqrt (x / m)]. So it is non-decreasing on the
    non-negative numbers, sends 0 to the lower end of the range and [m]
    to the upper end. *)
Theorem radiusScale_spec (h : Host) (timeFilterValue : Z) (s : state) :
  let A := computeStationTraffic (stations s)
             (filterTripsByTime (trips s) timeFilterValue) in
  exists sc m,
    radiusScale (updateScatterPlot h timeFilterValue s) = Some sc
    /\ sq_domain sc = (0, Z.of_nat m)
    /\ (1 <= m)%nat
    /\ Forall (fun d => (totalTraffic d <= m)%nat) A
    /\ ((m = 1%nat /\ Forall (fun d => totalTraffic d = 0%nat) A)
        \/ exists d, d ∈ A /\ totalTraffic d = m)
    /\ sq_range sc = (if decide (timeFilterValue = -1) then (0, 25) else (3, 50))
    /\ (forall x y : R, (0 <= x)%R -> (x <= y)%R ->
          (sqrt_scale_apply sc x <= sqrt_scale_apply sc y)%R)
    /\ sqrt_scale_apply sc (INR 0) = IZR (fst (sq_range sc))
    /\ sqrt_scale_apply sc (INR m) = IZR (snd (sq_range sc))
    /\ (forall x : R, (0 <= x)%R ->
          sqrt_scale_apply sc x
          = (IZR (fst (sq_range sc))
             + (IZR (snd (sq_range sc)) - IZR (fst (sq_range sc)))
               * sqrt (x / INR m))%R).
Proof.
  intros A.
  destruct (maxTraffic_spec A) as (Hm & Hall & Hwit).
  eexists _, (maxTraffic A).
  split; [apply updateScatterPlot_radiusScale|]. fold A.
  assert (1 <= INR (maxTraffic A))%R as Hm1
    by (change 1%R with (INR 1); by apply le_INR).
  assert (0 < sqrt (INR (maxTraffic A)))%R as Hs by (apply sqrt_lt_R0; lra).
  split; [done|]. split; [done|]. split; [done|]. split; [done|]. split; [done|].
  destruct (decide (timeFilterValue = -1)).
  - split; [intros x y Hx Hxy; apply sqrt_scale_monotone; (done || lia)|].
    rewrite !sqrt_scale_apply_eq by (done || apply pos_INR).
    simpl. rewrite sqrt_0. split; [field; lra|]. split; [field; lra|].
    intros x Hx. rewrite sqrt_scale_apply_eq by done.
    rewrite sqrt_div_alt by lra. simpl. field. lra.
  - split; [intros x y Hx Hxy; apply sqrt_scale_monotone; (done || lia)|].
    rewrite !sqrt_scale_apply_eq by (done || apply pos_INR).
    simpl. rewrite sqrt_0. split; [field; lra|]. split; [field; lra|].
    intros x Hx. rewrite sqrt_scale_apply_eq by done.
    rewrite sqrt_div_alt by lra. simpl. field. lra.
Qed.

(** Traffic four times as large doubles the part of the radius above the
    lower end of the range: the scale is not linear. *)
Example sqrt_scale_not_linear :
  sqrt_scale_apply (MkSqrtScale (0, 4) (0, 25)) 1 = (25 / 2)%R.
Proof.
  change (MkSqrtScale (0, 4) (0, 25))
    with (MkSqrtScale (0, Z.of_nat 4) (0, 25)).
  rewrite sqrt_scale_apply_eq by (lia || lra).
  change (INR 4) with (INR (2 * 2)). rewrite mult_INR, sqrt_square by (simpl; lra).
  rewrite sqrt_1. simpl. field.
Qed.

End RadiusScale.

(** ** Marker reconciler *)

Section Reconciler.

(** *** The circles after a join are one per datum *)

Lemma segments_flat (mk : binding -> circle) (bs : list binding) (run : list circle) :
  concat (map snd (segments mk bs run).1) ++ (segments mk bs run).2
  = run ++ map mk bs.
Proof.
  revert run. induction bs as [|b bs IH]; intros run; simpl.
  - by rewrite app_nil_r.
  - destruct b as [i node d|d].
    + specialize (IH []). destruct (segments mk bs []) as [segs trailing].
      simpl in *. rewrite <- !app_assoc. simpl. by rewrite IH.
    + rewrite IH, <- app_assoc. reflexivity.
Qed.

Lemma concat_Permutation_snd (l1 l2 : list (nat * list circle)) :
  l1 ≡ₚ l2 -> concat (map snd l1) ≡ₚ concat (map snd l2).
Proof.
  induction 1 as [|x l1 l2 _ IH|x y l|l1 l2 l3 _ IH1 _ IH2]; simpl.
  - reflexivity.
  - by rewrite IH.
  - rewrite !app_assoc. f_equiv. apply Permutation_app_comm.
  - by rewrite IH1.
Qed.

Lemma document_order_Permutation (mk : binding -> circle) (bs : list binding) :
  document_order mk bs ≡ₚ map mk bs.
Proof.
  unfold document_order. pose proof (segments_flat mk bs []) as H.
  destruct (segments mk bs []) as [segs trailing]. simpl in H.
  rewrite <- H. f_equiv. apply concat_Permutation_snd, merge_sort_Permutation.
Qed.

Lemma bind_data_datum (data : list AnnotatedStation) (m : gmap string (nat * circle)) :
  map binding_datum (bind_data data m).1 = data.
Proof.
  revert m. induction data as [|d data IH]; intros m; simpl; [done|].
  destruct (m !! key_of d) as [[i node]|].
  - specialize (IH (delete (key_of d) m)).
    destruct (bind_data data (delete (key_of d) m)). simpl in *. by rewrite IH.
  - specialize (IH m). destruct (bind_data data m). simpl in *. by rewrite IH.
Qed.

Lemma data_join_datum (group : list circle) (data : list AnnotatedStation) :
  map binding_datum (sel_bindings (data_join group data)) = data.
Proof.
  unfold data_join. destruct (index_nodes 0 group ∅) as [byKey dup].
  pose proof (bind_data_datum data byKey) as H.
  destruct (bind_data data byKey). exact H.
Qed.

Lemma render_data (sc : sqrt_scale) (b : binding) :
  c_data (render sc b) = binding_datum b.
Proof. by destruct b. Qed.

Lemma reconcile_selection (h : Host) (sc : sqrt_scale) (dom : list circle)
    (A : list AnnotatedStation) :
  (reconcile h sc dom A).1 = data_join dom A.
Proof. reflexivity. Qed.

Lemma reconcile_Permutation (h : Host) (sc : sqrt_scale) (dom : list circle)
    (A : list AnnotatedStation) :
  (reconcile h sc dom A).2
  ≡ₚ map (fun b => set_position h (render sc b)) (sel_bindings (data_join dom A)).
Proof.
  unfold reconcile, updatePositions. simpl.
  rewrite document_order_Permutation. by rewrite map_map.
Qed.

(** The circles after a reconciliation carry the annotated stations, each
    once. *)
Lemma reconcile_data (h : Host) (sc : sqrt_scale) (dom : list circle)
    (A : list AnnotatedStation) :
  map c_data (reconcile h sc dom A).2 ≡ₚ A.
Proof.
  rewrite reconcile_Permutation, map_map. simpl.
  rewrite <- (data_join_datum dom A) at 2.
  apply eq_subrelation; [apply _|]. apply map_ext. intros b. by destruct b.
Qed.

(** *** The nodes of a join come from the selected group *)

Lemma index_nodes_Forall (P : circle -> Prop) (group : list circle) (i : nat)
    (m : gmap string (nat * circle)) :
  Forall P group -> map_Forall (fun _ jc => P jc.2) m ->
  map_Forall (fun _ jc => P jc.2) (index_nodes i group m).1.
Proof.
  intros Hg. revert i m. induction Hg as [|c group Hc _ IH]; intros i m Hm; simpl.
  - done.
  - destruct (m !! key_of (c_data c)).
    + specialize (IH (S i) m Hm). by destruct (index_nodes (S i) group m).
    + specialize (IH (S i) (<[key_of (c_data c) := (i, c)]> m)).
      destruct (index_nodes (S i) group _). apply IH.
      by apply map_Forall_insert_2.
Qed.

Lemma bind_data_Forall (P : circle -> Prop) (data : list AnnotatedStation)
    (m : gmap string (nat * circle)) :
  map_Forall (fun _ jc => P jc.2) m ->
  Forall (fun b => match b with Update _ node _ => P node | Enter _ => True end)
         (bind_data data m).1.
Proof.
  revert m. induction data as [|d data IH]; intros m Hm; simpl; [constructor|].
  destruct (m !! key_of d) as [[i node]|] eqn:Hk.
  - specialize (IH (delete (key_of d) m)).
    destruct (bind_data data (delete (key_of d) m)). simpl in *.
    constructor; [exact (Hm _ _ Hk) | apply IH].
    by apply map_Forall_delete.
  - specialize (IH m Hm). destruct (bind_data data m). by constructor.
Qed.

Lemma data_join_Forall (P : circle -> Prop) (group : list circle)
    (data : list AnnotatedStation) :
  Forall P group ->
  Forall (fun b => match b with Update _ node _ => P node | Enter _ => True end)
         (sel_bindings (data_join group data)).
Proof.
  intros Hg. unfold data_join.
  pose proof (index_nodes_Forall P group 0 ∅ Hg (map_Forall_empty _)) as Hm.
  destruct (index_nodes 0 group ∅) as [byKey dup]. simpl in Hm.
  pose proof (bind_data_Forall P data byKey Hm) as Hb.
  by destruct (bind_data data byKey).
Qed.

(** *** Tooltips *)

Lemma render_titles (sc : sqrt_scale) (b : binding) :
  match b with Update _ node _ => one_title node | Enter _ => True end ->
  c_titles (render sc b) = [tooltip (binding_datum b)].
Proof.
  destruct b as [i node d|d]; simpl; [|done].
  unfold one_title. destruct (c_titles node) as [|t [|t' ts]]; simpl; [done|done|lia].
Qed.

Lemma reconcile_titles (h : Host) (sc : sqrt_scale) (dom : list circle)
    (A : list AnnotatedStation) :
  Forall one_title dom ->
  Forall (fun c => c_titles c = [tooltip (c_data c)]) (reconcile h sc dom A).2.
Proof.
  intros Hdom. rewrite reconcile_Permutation. apply Forall_map.
  eapply Forall_impl; [apply (data_join_Forall one_title _ A Hdom)|].
  intros b Hb.
  change (c_titles (render sc b) = [tooltip (c_data (render sc b))]).
  rewrite render_data. by apply render_titles.
Qed.

Lemma updateScatterPlot_svg (h : Host) (timeFilterValue : Z) (s : state) :
  exists sc,
    svg (updateScatterPlot h timeFilterValue s)
    = (reconcile h sc (svg s)
         (computeStationTraffic (stations s)
            (filterTripsByTime (trips s) timeFilterValue))).2.
Proof. unfold updateScatterPlot. eexists. reflexivity. Qed.

Lemma updateScatterPlot_one_title (h : Host) (timeFilterValue : Z) (s : state) :
  Forall one_title (svg s) ->
  Forall one_title (svg (updateScatterPlot h timeFilterValue s)).
Proof.
  intros Hs. destruct (updateScatterPlot_svg h timeFilterValue s) as [sc ->].
  eapply Forall_impl; [apply (reconcile_titles h sc _ _ Hs)|].
  intros c Hc. unfold one_title. by rewrite Hc.
Qed.

(** C9. After a render of a page whose circles have at most one [title]
    child each, every circle under the [svg] has exactly one [title],
    whose text is the total, " trips (", the departures, " departures, ",
    the arrivals and " arrivals)", the three counts in decimal; and the
    circles carry exactly the annotated stations of the render. *)
Theorem tooltip_text (h : Host) (timeFilterValue : Z) (s : state)
    (Hs : Forall one_title (svg s)) :
  let s' := updateScatterPlot h timeFilterValue s in
  Forall (fun c =>
            c_titles c =
            [pretty (totalTraffic (c_data c)) +:+ " trips ("
             +:+ pretty (departures (c_data c)) +:+ " departures, "
             +:+ pretty (arrivals (c_data c)) +:+ " arrivals)"])
         (svg s')
  /\ map c_data (svg s')
     ≡ₚ computeStationTraffic (stations s)
          (filterTripsByTime (trips s) timeFilterValue)
  /\ Forall one_title (svg s').
Proof.
  intros s'. unfold s'.
  destruct (updateScatterPlot_svg h timeFilterValue s) as [sc ->].
  pose proof (reconcile_titles h sc (svg s)
                (computeStationTraffic (stations s)
                   (filterTripsByTime (trips s) timeFilterValue)) Hs) as Ht.
  split; [exact Ht|]. split; [apply reconcile_data|].
  eapply Forall_impl; [exact Ht|]. intros c Hc. unfold one_title. by rewrite Hc.
Qed.

Lemma tooltip_text_witness :
  Forall one_title (svg example_state)
  /\ let s' := updateScatterPlot example_host 480 example_state in
     Forall (fun c =>
               c_titles c =
               [pretty (totalTraffic (c_data c)) +:+ " trips ("
                +:+ pretty (departures (c_data c)) +:+ " departures, "
                +:+ pretty (arrivals (c_data c)) +:+ " arrivals)"])
            (svg s')
     /\ map c_data (svg s')
        ≡ₚ computeStationTraffic (stations example_state)
             (filterTripsByTime (trips example_state) 480)
     /\ Forall one_title (svg s').
Proof.
  split; [constructor|].
  apply (tooltip_text example_host 480 example_state). constructor.
Defined.

Example tooltip_example :
  tooltip (example_annotated "A" 1 1) = "2 trips (1 departures, 1 arrivals)"
  /\ map c_titles (svg (updateScatterPlot example_host 480 example_state))
     = [["1 trips (1 departures, 0 arrivals)"];
        ["1 trips (0 departures, 1 arrivals)"]].
Proof. split; vm_compute; reflexivity. Qed.

(** *** A second join over the same stations *)

Lemma index_nodes_NoDup (group : list circle) (i : nat)
    (m : gmap string (nat * circle)) :
  NoDup (map node_key group) ->
  (forall c, c ∈ group -> m !! node_key c = None) ->
  (index_nodes i group m).2 = replicate (length group) false
  /\ dom (index_nodes i group m).1 = dom m ∪ list_to_set (map node_key group).
Proof.
  revert i m. induction group as [|c group IH]; intros i m Hnd Hfresh; simpl.
  - split; [done | set_solver].
  - inversion Hnd as [|? ? Hc Hnd']; subst.
    fold (node_key c). rewrite (Hfresh c) by (by left).
    specialize (IH (S i) (<[node_key c := (i, c)]> m) Hnd').
    destruct (index_nodes (S i) group _) as [m' dup]. simpl in *.
    destruct IH as [-> ->].
    + intros c' Hc'. rewrite lookup_insert_ne; [apply Hfresh; by right|].
      intros Heq. apply Hc. rewrite Heq.
      apply list_elem_of_In, in_map, list_elem_of_In, Hc'.
    + split; [done|]. rewrite dom_insert_L. set_solver.
Qed.

Lemma bind_data_all_update (data : list AnnotatedStation)
    (m : gmap string (nat * circle)) :
  NoDup (map key_of data) ->
  (forall d, d ∈ data -> key_of d ∈ dom m) ->
  Forall (fun b => is_update b) (bind_data data m).1
  /\ dom (bind_data data m).2 = dom m ∖ list_to_set (map key_of data).
Proof.
  revert m. induction data as [|d data IH]; intros m Hnd Hdom; simpl.
  - split; [constructor | set_solver].
  - inversion Hnd as [|? ? Hd Hnd']; subst.
    destruct (m !! key_of d) as [[i node]|] eqn:Hk.
    + specialize (IH (delete (key_of d) m) Hnd').
      destruct (bind_data data (delete (key_of d) m)) as [bs m']. simpl in *.
      destruct IH as [Hbs ->].
      * intros d' Hd'. rewrite dom_delete_L.
        apply elem_of_difference. split; [apply Hdom; by right|].
        rewrite elem_of_singleton. intros Heq. apply Hd. rewrite <- Heq.
        apply list_elem_of_In, in_map, list_elem_of_In, Hd'.
      * split; [by constructor|]. rewrite dom_delete_L. set_solver.
    + exfalso. apply not_elem_of_dom in Hk. apply Hk, Hdom. left.
Qed.

Lemma nth_replicate_false (i n : nat) : nth i (replicate n false) false = false.
Proof. revert i. induction n as [|n IH]; intros [|i]; simpl; auto. Qed.

Lemma exit_nodes_none (group : list circle) :
  Forall (fun o => o = None)
         (exit_nodes group (replicate (length group) false) ∅).
Proof.
  unfold exit_nodes. apply Forall_lookup. intros i o.
  rewrite list_lookup_imap. destruct (group !! i) as [node|]; simpl; [|done].
  rewrite nth_replicate_false, lookup_empty. by intros [= <-].
Qed.

Lemma exit_size_none (bs : list binding) (ex : list (option circle)) :
  Forall (fun o => o = None) ex -> exit_size (MkSelection bs ex) = 0%nat.
Proof.
  unfold exit_size. simpl. induction 1 as [|o ex -> _ IH]; [done|]. exact IH.
Qed.

Lemma enter_size_all_update (bs : list binding) (ex : list (option circle)) :
  Forall (fun b => is_update b) bs ->
  enter_size (MkSelection bs ex) = 0%nat
  /\ update_size (MkSelection bs ex) = length bs.
Proof.
  unfold enter_size, update_size. simpl.
  induction 1 as [|b bs Hb _ [IH1 IH2]]; [done|].
  destruct b; simpl in *; [|done]. split; [done | by rewrite IH2].
Qed.

(** A join of circles with distinct keys against data with the same,
    distinct keys updates every slot and enters and exits nothing. *)
Lemma data_join_same_keys (group : list circle) (data : list AnnotatedStation) :
  NoDup (map key_of data) ->
  map node_key group ≡ₚ map key_of data ->
  enter_size (data_join group data) = 0%nat
  /\ exit_size (data_join group data) = 0%nat
  /\ update_size (data_join group data) = length data.
Proof.
  intros Hnd Hperm. unfold data_join.
  assert (NoDup (map node_key group)) as Hg by (by rewrite Hperm).
  destruct (index_nodes_NoDup group 0 ∅ Hg) as [Hdup Hdom];
    [intros; apply lookup_empty|].
  destruct (index_nodes 0 group ∅) as [byKey dup]. simpl in *. subst dup.
  assert (dom byKey = list_to_set (map key_of data)) as Hkeys.
  { rewrite Hdom, Hperm. set_solver. }
  destruct (bind_data_all_update data byKey Hnd) as [Hbs Hleft].
  { intros d Hd. rewrite Hkeys, elem_of_list_to_set.
    apply list_elem_of_In, in_map, list_elem_of_In, Hd. }
  pose proof (bind_data_datum data byKey) as Hlen.
  destruct (bind_data data byKey) as [bs unbound]. simpl in *.
  assert (unbound = ∅) as ->.
  { apply dom_empty_inv_L. rewrite Hleft, Hkeys. set_solver. }
  destruct (enter_size_all_update bs
              (exit_nodes group (replicate (length group) false) ∅) Hbs)
    as [He Hu].
  split; [exact He|]. split; [apply exit_size_none, exit_nodes_none|].
  rewrite Hu, <- Hlen at 1. by rewrite length_map.
Qed.

(** C6. For annotated stations with pairwise distinct keys, reconciling a
    second time with the same stations right after a first reconciliation
    (from any circles, under any scales and viewports) enters no circle
    and removes none: every slot of the second join is an update, and the
    circles still carry exactly these stations. *)
Theorem reconcile_idempotent (h1 h2 : Host) (sc1 sc2 : sqrt_scale)
    (dom : list circle) (A : list AnnotatedStation)
    (HA : NoDup (map key_of A)) :
  let dom1 := (reconcile h1 sc1 dom A).2 in
  let second := reconcile h2 sc2 dom1 A in
  enter_size second.1 = 0%nat
  /\ exit_size second.1 = 0%nat
  /\ update_size second.1 = length A
  /\ map c_data second.2 ≡ₚ A.
Proof.
  intros dom1 second.
  assert (map node_key dom1 ≡ₚ map key_of A) as Hkeys.
  { unfold dom1. rewrite <- (reconcile_data h1 sc1 dom A) at 2.
    by rewrite map_map. }
  unfold second. rewrite reconcile_selection.
  destruct (data_join_same_keys dom1 A HA Hkeys) as (He & Hx & Hu).
  repeat split; try done. apply reconcile_data.
Qed.

Lemma reconcile_idempotent_witness :
  let A := computeStationTraffic example_stations example_trips in
  let sc := MkSqrtScale (0, 2) (0, 25) in
  NoDup (map key_of A)
  /\ let dom1 := (reconcile example_host sc [] A).2 in
     let second := reconcile example_host sc dom1 A in
     enter_size second.1 = 0%nat
     /\ exit_size second.1 = 0%nat
     /\ update_size second.1 = length A
     /\ map c_data second.2 ≡ₚ A.
Proof.
  assert (NoDup (map key_of (computeStationTraffic example_stations example_trips)))
    as H by (apply (bool_decide_unpack _); vm_compute; exact I).
  split; [exact H|].
  exact (reconcile_idempotent example_host example_host
           (MkSqrtScale (0, 2) (0, 25)) (MkSqrtScale (0, 2) (0, 25)) []
           (computeStationTraffic example_stations example_trips) H).
Defined.

(** Two renders in a row at the same cursor: the second changes no
    membership of the marker set. *)
Lemma updateScatterPlot_twice (h1 h2 : Host) (timeFilterValue : Z) (s : state) :
  NoDup (map short_name (stations s)) ->
  let s1 := updateScatterPlot h1 timeFilterValue s in
  let s2 := updateScatterPlot h2 timeFilterValue s1 in
  exists second,
    circles s2 = Some second
    /\ enter_size second = 0%nat /\ exit_size second = 0%nat
    /\ update_size second = length (stations s).
Proof.
  intros HS s1 s2.
  set (A := computeStationTraffic (stations s)
              (filterTripsByTime (trips s) timeFilterValue)).
  assert (NoDup (map key_of A)) as HA
    by (unfold A; by rewrite computeStationTraffic_keys).
  assert (exists sc1, svg s1 = (reconcile h1 sc1 (svg s) A).2) as [sc1 H1].
  { unfold s1, updateScatterPlot. eexists. reflexivity. }
  assert (circles s2 = Some (data_join (svg s1) A)) as H2 by reflexivity.
  exists (data_join (svg s1) A). split; [exact H2|]. rewrite H1.
  destruct (data_join_same_keys (reconcile h1 sc1 (svg s) A).2 A HA)
    as (He & Hx & Hu).
  { rewrite <- (reconcile_data h1 sc1 (svg s) A) at 2. by rewrite map_map. }
  rewrite He, Hx, Hu. unfold A.
  by rewrite computeStationTraffic_length.
Qed.

(** With two stations under one key a second reconciliation is not
    neutral: the second circle of the key exits and the second datum
    enters again. *)
Example reconcile_duplicate_keys :
  let A := [example_annotated "A" 0 0; example_annotated "A" 0 0] in
  let sc := MkSqrtScale (0, 1) (0, 25) in
  let dom1 := (reconcile example_host sc [] A).2 in
  let second := reconcile example_host sc dom1 A in
  enter_size second.1 = 1%nat /\ exit_size second.1 = 1%nat
  /\ update_size second.1 = 1%nat.
Proof. vm_compute. repeat split. Qed.

End Reconciler.

(** ** Interaction controller *)

Section Controller.

(** A render leaves the base data, the cursor, the slider and the labels
    alone. *)
Lemma updateScatterPlot_frame (h : Host) (timeFilterValue : Z) (s : state) :
  let s' := updateScatterPlot h timeFilterValue s in
  stations s' = stations s /\ trips s' = trips s
  /\ timeFilter s' = timeFilter s /\ timeSlider s' = timeSlider s
  /\ selectedTimeEl s' = selectedTimeEl s /\ anyTimeLabel s' = anyTimeLabel s.
Proof. repeat split. Qed.

(** What [updateTimeDisplay] stores and shows, whether or not it goes on
    to render. *)
Lemma updateTimeDisplay_cursor (h : Host) (s : state) (value : Z) :
  timeSlider s = Some value ->
  let s' := updateTimeDisplay h s in
  timeFilter s' = value
  /\ selectedTimeEl s' = (if decide (value = -1) then "" else formatTime h value)
  /\ anyTimeLabel s' = (if decide (value = -1) then "inline" else "none").
Proof.
  intros Hv. unfold updateTimeDisplay. rewrite Hv.
  destruct (decide (value = -1));
    destruct (bool_decide _ || bool_decide _); repeat split.
Qed.

(** The guard of [updateTimeDisplay]: while a list is empty, nothing but
    the cursor and the two labels changes. *)
Lemma updateTimeDisplay_guard (h : Host) (s : state) (value : Z) :
  timeSlider s = Some value -> stations s = [] \/ trips s = [] ->
  updateTimeDisplay h s
  = MkState (stations s) (trips s) value (radiusScale s) (circles s) (svg s)
            (timeSlider s)
            (if decide (value = -1) then "" else formatTime h value)
            (if decide (value = -1) then "inline" else "none").
Proof.
  intros Hv Hload. unfold updateTimeDisplay. rewrite Hv.
  assert (bool_decide (stations s = []) || bool_decide (trips s = []) = true) as Hg.
  { apply orb_true_iff. rewrite !bool_decide_eq_true. exact Hload. }
  destruct (decide (value = -1)); simpl; by rewrite Hg.
Qed.

Lemma step_not_rendered (h : Host) (e : event) (ps : phase * state) :
  not_rendered ps -> not_rendered (step h e ps).
Proof.
  destruct ps as [p s]. unfold not_rendered. intros Inv.
  destruct e; destruct p; simpl in *; intros Hp; try done;
    try (by apply Inv).
  all: specialize (Inv ltac:(done)); destruct Inv as (Ht & Hr & Hc & Hsvg).
  all: destruct (timeSlider s) as [old|] eqn:Hold;
    [|unfold updateTimeDisplay, set_slider; simpl; rewrite Hold; simpl;
      by repeat split].
  all: rewrite (updateTimeDisplay_guard h (set_slider value s) value);
    [by repeat split
    |unfold set_slider; simpl; by rewrite Hold
    |right; exact Ht].
Qed.

Lemma run_not_rendered (evs : list (Host * event)) (ps : phase * state) :
  not_rendered ps -> not_rendered (run evs ps).
Proof.
  revert ps. induction evs as [|[h e] evs IH]; intros ps Inv; simpl; [done|].
  apply IH, step_not_rendered, Inv.
Qed.

(** C8. A cursor change that arrives while the station list or the trip
    list is empty stores the cursor and sets the two labels, and changes
    nothing else: no join, no scale, no circle. And on every run of the
    page from its start, as long as the second load has not resumed
    nothing has been rendered. *)
Theorem pipeline_suppressed_until_loaded (h : Host) (s : state) (value : Z)
    (Hslider : timeSlider s = Some value)
    (Hload : stations s = [] \/ trips s = []) :
  let s' := updateTimeDisplay h s in
  (stations s' = stations s /\ trips s' = trips s
   /\ radiusScale s' = radiusScale s /\ circles s' = circles s
   /\ svg s' = svg s /\ timeSlider s' = timeSlider s)
  /\ timeFilter s' = value
  /\ selectedTimeEl s' = (if decide (value = -1) then "" else formatTime h value)
  /\ anyTimeLabel s' = (if decide (value = -1) then "inline" else "none")
  /\ (forall (evs : list (Host * event)) (slider : option Z),
        let ps := run evs (AwaitStations, initial_state slider) in
        ps.1 <> Loaded ->
        radiusScale ps.2 = None /\ circles ps.2 = None /\ svg ps.2 = []).
Proof.
  intros s'. unfold s'. rewrite (updateTimeDisplay_guard h s value Hslider Hload).
  simpl. split; [by repeat split|]. do 3 (split; [reflexivity|]).
  intros evs slider Hp.
  assert (not_rendered (AwaitStations, initial_state slider)) as Inv
    by (intros _; by repeat split).
  apply (run_not_rendered evs) in Inv. by destruct (Inv Hp) as (_ & ? & ? & ?).
Qed.

Lemma pipeline_suppressed_until_loaded_witness :
  let s := MkState example_stations [] (-1) None None [] (Some 480) "" "inline" in
  timeSlider s = Some 480
  /\ (stations s = [] \/ trips s = [])
  /\ let s' := updateTimeDisplay example_host s in
     (stations s' = stations s /\ trips s' = trips s
      /\ radiusScale s' = radiusScale s /\ circles s' = circles s
      /\ svg s' = svg s /\ timeSlider s' = timeSlider s)
     /\ timeFilter s' = 480
     /\ selectedTimeEl s'
        = (if decide (480 = -1) then "" else formatTime example_host 480)
     /\ anyTimeLabel s' = (if decide (480 = -1) then "inline" else "none")
     /\ (forall (evs : list (Host * event)) (slider : option Z),
           let ps := run evs (AwaitStations, initial_state slider) in
           ps.1 <> Loaded ->
           radiusScale ps.2 = None /\ circles ps.2 = None /\ svg ps.2 = []).
Proof.
  split; [reflexivity|]. split; [right; reflexivity|].
  apply (pipeline_suppressed_until_loaded example_host
           (MkState example_stations [] (-1) None None [] (Some 480) "" "inline")
           480); [reflexivity | right; reflexivity].
Defined.






(** The slider at 480 on the loaded scenario: the cursor is 480 and the
    circles show the one trip of 08:00. *)
Example cursor_480_renders_filtered :
  let s' := updateTimeDisplay example_host
              (MkState example_stations example_trips (-1) None None []
                       (Some 480) "" "inline") in
  timeFilter s' = 480
  /\ map (fun c => totalTraffic (c_data c)) (svg s') = [1%nat; 1%nat].
Proof. split; vm_compute; reflexivity. Qed.

(** Every slider event stores its value, in every phase. *)
Lemma step_SliderInput_cursor (h : Host) (p : phase) (s : state) (old value : Z) :
  timeSlider s = Some old ->
  timeFilter (step h (SliderInput value) (p, s)).2 = value.
Proof.
  intros Hold. simpl.
  apply (updateTimeDisplay_cursor h (set_slider value s) value).
  unfold set_slider. simpl. by rewrite Hold.
Qed.

(** Every page the script produces has at most one [title] under each
    circle. *)
Lemma updateTimeDisplay_one_title (h : Host) (s : state) :
  Forall one_title (svg s) -> Forall one_title (svg (updateTimeDisplay h s)).
Proof.
  intros Hs. unfold updateTimeDisplay. destruct (timeSlider s) as [value|]; [|done].
  destruct (decide (value = -1));
    destruct (bool_decide _ || bool_decide _); try done;
    by apply updateScatterPlot_one_title.
Qed.

Lemma step_one_title (h : Host) (e : event) (ps : phase * state) :
  Forall one_title (svg ps.2) -> Forall one_title (svg (step h e ps).2).
Proof.
  destruct ps as [p s]. intros Hs.
  destruct e; destruct p; simpl in *; try done.
  all: try (by apply updateTimeDisplay_one_title).
  - by apply updateTimeDisplay_one_title, updateScatterPlot_one_title.
  - unfold updatePositions. apply Forall_map.
    eapply Forall_impl; [exact Hs|]. by intros c Hc.
Qed.

Lemma run_one_title (evs : list (Host * event)) (slider : option Z) :
  Forall one_title (svg (run evs (AwaitStations, initial_state slider)).2).
Proof.
  assert (forall ps, Forall one_title (svg ps.2) ->
                     Forall one_title (svg (run evs ps).2)) as H.
  { induction evs as [|[h e] evs IH]; intros ps Hps; simpl; [done|].
    apply IH, step_one_title, Hps. }
  apply H. constructor.
Qed.

End Controller.

(* ===================================================================== *)
(** * Part III: further properties of the script                          *)
(* ===================================================================== *)

(** ** More on the time window filter *)

Section FilterEdges.

Lemma List_filter_idempotent {A} (p : A -> bool) (l : list A) :
  List.filter p (List.filter p l) = List.filter p l.
Proof.
  induction l as [|x l IH]; simpl; [done|].
  destruct (p x) eqn:Hx; simpl; [rewrite Hx; by f_equal | exact IH].
Qed.

(** X1. Filtering is stable: filtering an already filtered list at the
    same cursor changes nothing, the filter of a concatenation is the
    concatenation of the filters, and the result is never longer than the
    input. *)
Theorem filterTripsByTime_stable (T1 T2 : list Trip) (c : Z) :
  filterTripsByTime (filterTripsByTime T1 c) c = filterTripsByTime T1 c
  /\ filterTripsByTime (T1 ++ T2) c
     = filterTripsByTime T1 c ++ filterTripsByTime T2 c
  /\ (length (filterTripsByTime T1 c) <= length T1)%nat.
Proof.
  unfold filterTripsByTime. destruct (decide (c = -1)); [done|].
  split; [apply List_filter_idempotent|]. split; [apply List.filter_app|].
  apply sublist_length, List_filter_sublist.
Qed.

(** X2. At a cursor other than the sentinel every trip that is kept has
    a valid start or a valid end: a trip whose two dates are invalid is
    shown only when no time filter is set. *)
Theorem filterTripsByTime_invalid_dates (T : list Trip) (c : Z) (Hc : c <> -1) :
  Forall (fun trip => time_value (started_at trip) <> None
                      \/ time_value (ended_at trip) <> None)
         (filterTripsByTime T c)
  /\ forall trip, trip ∈ T -> trip ∈ filterTripsByTime T (-1).
Proof.
  split; [|done].
  unfold filterTripsByTime. destruct (decide (c = -1)); [done|].
  apply Forall_forall. intros trip Hin.
  apply list_elem_of_In, filter_In in Hin. destruct Hin as [_ Hnear].
  destruct trip as [s e [[ts|]] [[te|]]]; simpl in *;
    try (left; discriminate); try (right; discriminate).
Qed.

Lemma filterTripsByTime_invalid_dates_witness :
  480 <> -1
  /\ Forall (fun trip => time_value (started_at trip) <> None
                         \/ time_value (ended_at trip) <> None)
            (filterTripsByTime
               [MkTrip "A" "B" (MkDate None) (MkDate None);
                MkTrip "A" "B" (MkDate None) (at_time 8 10)] 480)
  /\ forall trip,
       trip ∈ [MkTrip "A" "B" (MkDate None) (MkDate None);
                MkTrip "A" "B" (MkDate None) (at_time 8 10)] ->
       trip ∈ filterTripsByTime
                [MkTrip "A" "B" (MkDate None) (MkDate None);
                 MkTrip "A" "B" (MkDate None) (at_time 8 10)] (-1).
Proof.
  split; [lia|].
  apply (filterTripsByTime_invalid_dates
           [MkTrip "A" "B" (MkDate None) (MkDate None);
            MkTrip "A" "B" (MkDate None) (at_time 8 10)] 480).
  lia.
Defined.

Lemma minutesSinceMidnight_Some_range (d : Date) (a : Z) :
  minutesSinceMidnight d = Some a -> 0 <= a <= 1439.
Proof.
  destruct d as [[t|]]; [|discriminate]. rewrite minutesSinceMidnight_valid.
  intros [= <-]. pose proof (HourFromTime_range t).
  pose proof (MinFromTime_range t). lia.
Qed.

(** X3. The window of a cursor reaches 60 minutes to either side and no
    further: a cursor below -60 or above 1499 keeps no trip at all,
    whatever the trips are. *)
Theorem filterTripsByTime_out_of_reach (T : list Trip) (c : Z)
    (Hc : c < -60 \/ 1499 < c) :
  filterTripsByTime T c = [].
Proof.
  unfold filterTripsByTime. destruct (decide (c = -1)); [lia|].
  induction T as [|trip T IH]; simpl; [done|].
  rewrite IH.
  destruct (num_le _ _) eqn:Hs.
  - apply near_cursor_within60 in Hs. destruct Hs as (a & Ha & Habs).
    apply minutesSinceMidnight_Some_range in Ha. lia.
  - destruct (num_le (Math_abs (num_sub (minutesSinceMidnight (ended_at trip))
                                        (Some c))) (Some 60)) eqn:He; [|done].
    apply near_cursor_within60 in He. destruct He as (a & Ha & Habs).
    apply minutesSinceMidnight_Some_range in Ha. lia.
Qed.

Lemma filterTripsByTime_out_of_reach_witness :
  (1500 < -60 \/ 1499 < 1500) /\ filterTripsByTime example_trips 1500 = [].
Proof.
  split; [lia|]. apply (filterTripsByTime_out_of_reach example_trips 1500). lia.
Defined.

End FilterEdges.

(** ** More on the traffic aggregator *)

Section AggregatorAlgebra.

Lemma count_key_Permutation {A} (key : A -> string) (id : string) (l l' : list A) :
  l ≡ₚ l' -> count_key key id l = count_key key id l'.
Proof. intros H. unfold count_key. by rewrite H. Qed.

Lemma count_key_app {A} (key : A -> string) (id : string) (l l' : list A) :
  count_key key id (l ++ l') = (count_key key id l + count_key key id l')%nat.
Proof. unfold count_key. by rewrite filter_app, length_app. Qed.

Lemma count_key_sublist {A} (key : A -> string) (id : string) (l l' : list A) :
  sublist l l' -> (count_key key id l <= count_key key id l')%nat.
Proof.
  intros H. unfold count_key. apply sublist_length.
  induction H as [|x l l' _ IH|x l l' _ IH].
  - constructor.
  - rewrite !filter_cons. case_decide; [by constructor | done].
  - rewrite filter_cons. case_decide; [by apply sublist_cons | done].
Qed.

(** X4. The aggregation does not depend on the order of the trips: two
    trip lists that are permutations of each other give the same annotated
    stations. *)
Theorem computeStationTraffic_trip_order (S : list Station) (T T' : list Trip)
    (HT : T ≡ₚ T') :
  computeStationTraffic S T = computeStationTraffic S T'.
Proof.
  rewrite !computeStationTraffic_map. apply map_ext. intros st.
  by rewrite (count_key_Permutation end_station_id _ T T' HT),
             (count_key_Permutation start_station_id _ T T' HT).
Qed.

Lemma computeStationTraffic_trip_order_witness :
  example_trips ≡ₚ reverse example_trips
  /\ computeStationTraffic example_stations example_trips
     = computeStationTraffic example_stations (reverse example_trips).
Proof.
  assert (example_trips ≡ₚ reverse example_trips) as H
    by (symmetry; apply reverse_Permutation).
  split; [exact H|].
  exact (computeStationTraffic_trip_order example_stations example_trips
           (reverse example_trips) H).
Defined.

(** X5. The aggregation is additive in the trips: over a concatenation
    of two trip lists every station's arrivals, departures and total are
    the sums of those over the two lists. *)
Theorem computeStationTraffic_app (S : list Station) (T1 T2 : list Trip) :
  computeStationTraffic S (T1 ++ T2)
  = zip_with (fun d1 d2 =>
                MkAnnotated (station d1)
                  (arrivals d1 + arrivals d2)
                  (departures d1 + departures d2)
                  (totalTraffic d1 + totalTraffic d2))
             (computeStationTraffic S T1) (computeStationTraffic S T2).
Proof.
  rewrite !computeStationTraffic_map.
  induction S as [|st S IH]; simpl; [done|]. rewrite IH. f_equal.
  rewrite !count_key_app. f_equal. lia.
Qed.

(** X6. A time filter can only take traffic away: at every cursor each
    station's arrivals, departures and total are at most its unfiltered
    ones, station by station in the same order. *)
Theorem filtered_traffic_le (S : list Station) (T : list Trip) (c : Z) :
  Forall2 (fun d d' =>
             station d = station d'
             /\ (arrivals d <= arrivals d')%nat
             /\ (departures d <= departures d')%nat
             /\ (totalTraffic d <= totalTraffic d')%nat)
          (computeStationTraffic S (filterTripsByTime T c))
          (computeStationTraffic S T).
Proof.
  assert (sublist (filterTripsByTime T c) T) as Hsub.
  { unfold filterTripsByTime. destruct (decide (c = -1)); [done|].
    apply List_filter_sublist. }
  rewrite !computeStationTraffic_map.
  induction S as [|st S IH]; simpl; constructor; [|exact IH].
  simpl. pose proof (count_key_sublist end_station_id (short_name st) _ _ Hsub).
  pose proof (count_key_sublist start_station_id (short_name st) _ _ Hsub).
  repeat split; lia.
Qed.

End AggregatorAlgebra.

(** ** More on the scales *)

Section ScaleShape.

(** X7. The flow scale is monotone: a larger ratio never gets a lower
    level. *)
Theorem stationFlow_monotone (x y : Q) (Hxy : (x <= y)%Q) :
  (stationFlow x <= stationFlow y)%Q.
Proof.
  destruct (stationFlow_buckets x) as (Hx0 & Hx1 & Hx2).
  destruct (stationFlow_buckets y) as (Hy0 & Hy1 & Hy2).
  destruct (Qlt_le_dec x (1 # 3)) as [X1|X1];
    [rewrite (Hx0 X1) | destruct (Qlt_le_dec x (2 # 3)) as [X2|X2];
                        [rewrite (Hx1 X1 X2) | rewrite (Hx2 X2)]];
    (destruct (Qlt_le_dec y (1 # 3)) as [Y1|Y1];
     [rewrite (Hy0 Y1) | destruct (Qlt_le_dec y (2 # 3)) as [Y2|Y2];
                         [rewrite (Hy1 Y1 Y2) | rewrite (Hy2 Y2)]]);
    try (by compute); lra.
Qed.

Lemma stationFlow_monotone_witness :
  (1 # 3 <= 2 # 3)%Q /\ (stationFlow (1 # 3) <= stationFlow (2 # 3))%Q.
Proof.
  split; [by compute|]. apply (stationFlow_monotone (1 # 3) (2 # 3)). by compute.
Defined.

Lemma count_ratio_lt (dep total : nat) (a b : positive) :
  (0 < total)%nat ->
  (inject_Z (Z.of_nat dep) / inject_Z (Z.of_nat total) < Z.pos a # b)%Q
  <-> Z.pos b * Z.of_nat dep < Z.pos a * Z.of_nat total.
Proof.
  intros Ht.
  assert (0 < inject_Z (Z.of_nat total))%Q as Hpos.
  { change 0%Q with (inject_Z 0). rewrite <- Zlt_Qlt. lia. }
  split.
  - intros H. apply (Qmult_lt_compat_r _ _ _ Hpos) in H.
    rewrite Qmult_comm, Qmult_div_r in H by lra.
    unfold Qlt, Qmult, inject_Z in H. simpl in H. lia.
  - intros H. apply Qlt_shift_div_r; [exact Hpos|].
    unfold Qlt, Qmult, inject_Z. simpl. lia.
Qed.

(** X8. The flow level in whole numbers. A station with traffic gets
    level 0 exactly when three times its departures are less than its
    total, level 1 exactly when they are at least twice its total, and
    1/2 in between; without traffic it gets 1/2. So with
    [total = arrivals + departures] the level is 0 when the arrivals
    exceed twice the departures and 1 when the departures are at least
    twice the arrivals. *)
Theorem departure_ratio_counts (d : AnnotatedStation) :
  departure_ratio d
  = if (totalTraffic d =? 0)%nat then (1 # 2)%Q
    else if (3 * departures d <? totalTraffic d)%nat then 0%Q
    else if (3 * departures d <? 2 * totalTraffic d)%nat then (1 # 2)%Q
    else 1%Q.
Proof.
  unfold departure_ratio.
  destruct (Nat.eqb_spec (totalTraffic d) 0) as [H0|H0]; [reflexivity|].
  set (ratio := (inject_Z (Z.of_nat (departures d))
                 / inject_Z (Z.of_nat (totalTraffic d)))%Q).
  destruct (stationFlow_buckets ratio) as (Hlo & Hmid & Hhi).
  pose proof (count_ratio_lt (departures d) (totalTraffic d) 1 3 ltac:(lia)) as H1.
  pose proof (count_ratio_lt (departures d) (totalTraffic d) 2 3 ltac:(lia)) as H2.
  fold ratio in H1, H2.
  destruct (Nat.ltb_spec (3 * departures d) (totalTraffic d)) as [L1|L1].
  - apply Hlo, H1. lia.
  - assert (1 # 3 <= ratio)%Q as G1.
    { apply Qnot_lt_le. intros G. apply H1 in G. lia. }
    destruct (Nat.ltb_spec (3 * departures d) (2 * totalTraffic d)) as [L2|L2].
    + apply Hmid; [exact G1|]. apply H2. lia.
    + apply Hhi. apply Qnot_lt_le. intros G. apply H2 in G. lia.
Qed.

End ScaleShape.

(** ** More on the rendered markers *)

Section RenderedMarkers.

Lemma render_styled (h : Host) (sc : sqrt_scale) (b : binding) :
  match b with Update _ node _ => fully_styled node | Enter _ => True end ->
  fully_styled (set_position h (render sc b))
  /\ c_r (set_position h (render sc b))
     = Some (sqrt_scale_apply sc (INR (totalTraffic (binding_datum b))))
  /\ (c_cx (set_position h (render sc b)), c_cy (set_position h (render sc b)))
     = (Some (getCoords h (station (binding_datum b))).1,
        Some (getCoords h (station (binding_datum b))).2).
Proof.
  destruct b as [i node d|d]; simpl.
  - intros (Hs & Hw & Ho & _ & _ & Ht & _). unfold fully_styled. simpl.
    rewrite Hs, Hw, Ho, Ht. simpl. repeat split; eauto.
  - intros _. unfold fully_styled. simpl. repeat split; eauto.
Qed.

Lemma reconcile_styled (h : Host) (sc : sqrt_scale) (dom : list circle)
    (A : list AnnotatedStation) :
  Forall fully_styled dom ->
  Forall (fun c =>
            fully_styled c
            /\ c_data c ∈ A
            /\ c_r c = Some (sqrt_scale_apply sc (INR (totalTraffic (c_data c))))
            /\ (c_cx c, c_cy c)
               = (Some (getCoords h (station (c_data c))).1,
                  Some (getCoords h (station (c_data c))).2))
         (reconcile h sc dom A).2.
Proof.
  intros Hdom. rewrite reconcile_Permutation. apply Forall_map.
  pose proof (data_join_Forall fully_styled dom A Hdom) as Hb.
  pose proof (data_join_datum dom A) as Hd.
  apply Forall_forall. intros b Hin.
  rewrite Forall_forall in Hb. specialize (Hb b Hin).
  destruct (render_styled h sc b Hb) as (H1 & H2 & H3).
  assert (c_data (set_position h (render sc b)) = binding_datum b) as Hdata
    by (by destruct b).
  rewrite Hdata. split; [exact H1|]. split; [|split; [exact H2 | exact H3]].
  assert (binding_datum b ∈ map binding_datum (sel_bindings (data_join dom A)))
    as G by (apply list_elem_of_In, in_map, list_elem_of_In, Hin).
  by rewrite Hd in G.
Qed.

Lemma updateScatterPlot_svg_scale (h : Host) (timeFilterValue : Z) (s : state) :
  svg (updateScatterPlot h timeFilterValue s)
  = (reconcile h
       (MkSqrtScale
          (0, Z.of_nat (maxTraffic
                          (computeStationTraffic (stations s)
                             (filterTripsByTime (trips s) timeFilterValue))))
          (radius_range timeFilterValue))
       (svg s)
       (computeStationTraffic (stations s)
          (filterTripsByTime (trips s) timeFilterValue))).2.
Proof. unfold updateScatterPlot. simpl. by destruct (radiusScale s). Qed.

(** X9. After a render of a page whose circles are fully styled, every
    circle has a radius within the range of the cursor: between 0 and 25
    without a time filter, between 3 and 50 with one. A station without
    traffic has the lower end and a station with the largest traffic of
    the set, when that is not 0, the upper end. *)
Theorem rendered_radius_bounds (h : Host) (timeFilterValue : Z) (s : state)
    (Hs : Forall fully_styled (svg s)) :
  let s' := updateScatterPlot h timeFilterValue s in
  let lo := (radius_range timeFilterValue).1 in
  let hi := (radius_range timeFilterValue).2 in
  let A := computeStationTraffic (stations s)
             (filterTripsByTime (trips s) timeFilterValue) in
  Forall (fun c =>
            exists r, c_r c = Some r
                      /\ (IZR lo <= r <= IZR hi)%R
                      /\ (totalTraffic (c_data c) = 0%nat -> r = IZR lo)
                      /\ (totalTraffic (c_data c) <> 0%nat ->
                          Forall (fun d => (totalTraffic d
                                            <= totalTraffic (c_data c))%nat) A ->
                          r = IZR hi))
         (svg s').
Proof.
  intros s' lo hi A. unfold s'. rewrite updateScatterPlot_svg_scale.
  change (computeStationTraffic (stations s)
            (filterTripsByTime (trips s) timeFilterValue)) with A.
  destruct (maxTraffic_spec A) as (Hm & Hall & Hwit).
  set (m := maxTraffic A) in *.
  assert (lo <= hi) as Hr
    by (unfold lo, hi, radius_range; destruct (decide _); simpl; lia).
  assert (radius_range timeFilterValue = (lo, hi)) as ->
    by (unfold lo, hi; by destruct (radius_range timeFilterValue)).
  assert (1 <= INR m)%R as Hm1 by (change 1%R with (INR 1); by apply le_INR).
  assert (0 < sqrt (INR m))%R as Hsq by (apply sqrt_lt_R0; lra).
  assert (sqrt_scale_apply (MkSqrtScale (0, Z.of_nat m) (lo, hi)) (INR 0) = IZR lo)
    as Hat0.
  { rewrite sqrt_scale_apply_eq by (done || apply pos_INR).
    simpl. rewrite sqrt_0. field. lra. }
  assert (sqrt_scale_apply (MkSqrtScale (0, Z.of_nat m) (lo, hi)) (INR m) = IZR hi)
    as Hatm.
  { rewrite sqrt_scale_apply_eq by (done || apply pos_INR). field. lra. }
  eapply Forall_impl; [apply (reconcile_styled h _ (svg s) A Hs)|].
  intros c (_ & Hin & Hcr & _). eexists. split; [exact Hcr|].
  rewrite Forall_forall in Hall. specialize (Hall _ Hin). simpl in Hall.
  split; [|split].
  - rewrite <- Hat0 at 1. rewrite <- Hatm.
    split; apply sqrt_scale_monotone; try done; try apply pos_INR;
      try (by apply le_INR); simpl; lra.
  - intros ->. exact Hat0.
  - intros Hne Hmax. rewrite <- Hatm. do 2 f_equal.
    destruct Hwit as [[_ Hzero]|(d & Hd & Hdm)].
    + rewrite Forall_forall in Hzero. specialize (Hzero _ Hin). simpl in Hzero.
      lia.
    + rewrite Forall_forall in Hmax. specialize (Hmax _ Hd). simpl in Hmax. lia.
Qed.

Lemma rendered_radius_bounds_witness :
  Forall fully_styled (svg example_state)
  /\ let s' := updateScatterPlot example_host 480 example_state in
     let lo := (radius_range 480).1 in
     let hi := (radius_range 480).2 in
     let A := computeStationTraffic (stations example_state)
                (filterTripsByTime (trips example_state) 480) in
     Forall (fun c =>
               exists r, c_r c = Some r
                         /\ (IZR lo <= r <= IZR hi)%R
                         /\ (totalTraffic (c_data c) = 0%nat -> r = IZR lo)
                         /\ (totalTraffic (c_data c) <> 0%nat ->
                             Forall (fun d => (totalTraffic d
                                               <= totalTraffic (c_data c))%nat) A ->
                             r = IZR hi))
            (svg s').
Proof.
  split; [constructor|].
  apply (rendered_radius_bounds example_host 480 example_state). constructor.
Defined.

(** X10. For circles whose stations have a latitude that [LngLat]
    accepts, [updatePositions] moves every circle to the projection of its
    own station under the current viewport and touches nothing else; the
    last viewport wins, so repeating it under the same viewport changes
    nothing. *)
Theorem updatePositions_last_viewport (h1 h2 : Host) (dom : list circle)
    (Hlat : Forall (fun c => valid_latitude (station (c_data c))) dom) :
  updatePositions h2 (updatePositions h1 dom) = updatePositions h2 dom
  /\ updatePositions h2 (updatePositions h2 dom) = updatePositions h2 dom
  /\ Forall2 (fun c c' =>
                c_data c' = c_data c /\ c_r c' = c_r c
                /\ c_departure_ratio c' = c_departure_ratio c
                /\ c_titles c' = c_titles c
                /\ c_stroke c' = c_stroke c
                /\ c_stroke_width c' = c_stroke_width c
                /\ c_fill_opacity c' = c_fill_opacity c
                /\ c_cx c' = Some (project h2 (lon (station (c_data c)))
                                            (lat (station (c_data c)))).1
                /\ c_cy c' = Some (project h2 (lon (station (c_data c)))
                                            (lat (station (c_data c)))).2)
             dom (updatePositions h2 dom)
  /\ Forall (fun c => valid_latitude (station (c_data c)))
            (updatePositions h2 dom).
Proof.
  unfold updatePositions. rewrite !map_map.
  split; [by apply map_ext|]. split; [by apply map_ext|]. split.
  - clear Hlat. induction dom as [|c dom IH]; simpl; constructor; [|exact IH].
    by repeat split.
  - apply Forall_map. eapply Forall_impl; [exact Hlat|]. by intros c Hc.
Qed.

Lemma updatePositions_last_viewport_witness :
  let dom := [append_circle (example_annotated "A" 0 0)] in
  Forall (fun c => valid_latitude (station (c_data c))) dom
  /\ updatePositions dst_start_host (updatePositions example_host dom)
     = updatePositions dst_start_host dom
  /\ updatePositions dst_start_host (updatePositions dst_start_host dom)
     = updatePositions dst_start_host dom
  /\ Forall2 (fun c c' =>
                c_data c' = c_data c /\ c_r c' = c_r c
                /\ c_departure_ratio c' = c_departure_ratio c
                /\ c_titles c' = c_titles c
                /\ c_stroke c' = c_stroke c
                /\ c_stroke_width c' = c_stroke_width c
                /\ c_fill_opacity c' = c_fill_opacity c
                /\ c_cx c' = Some (project dst_start_host
                                     (lon (station (c_data c)))
                                     (lat (station (c_data c)))).1
                /\ c_cy c' = Some (project dst_start_host
                                     (lon (station (c_data c)))
                                     (lat (station (c_data c)))).2)
             dom (updatePositions dst_start_host dom)
  /\ Forall (fun c => valid_latitude (station (c_data c)))
            (updatePositions dst_start_host dom).
Proof.
  assert (Forall (fun c => valid_latitude (station (c_data c)))
                 [append_circle (example_annotated "A" 0 0)]) as H
    by (repeat constructor; by compute).
  split; [exact H|].
  exact (updatePositions_last_viewport example_host dst_start_host
           [append_circle (example_annotated "A" 0 0)] H).
Defined.

End RenderedMarkers.

(** ** The page over its whole run *)

Section PageInvariants.

Lemma run_invariant (P : phase * state -> Prop) :
  (forall h e ps, P ps -> P (step h e ps)) ->
  forall evs ps, P ps -> P (run evs ps).
Proof.
  intros Hstep evs. induction evs as [|[h e] evs IH]; intros ps Hps; simpl; [done|].
  apply IH, Hstep, Hps.
Qed.

Lemma run_snoc (evs : list (Host * event)) (h : Host) (e : event)
    (ps : phase * state) :
  run (evs ++ [(h, e)]) ps = step h e (run evs ps).
Proof. unfold run. by rewrite foldl_app. Qed.

Lemma updateScatterPlot_styled (h : Host) (timeFilterValue : Z) (s : state) :
  Forall fully_styled (svg s) ->
  Forall fully_styled (svg (updateScatterPlot h timeFilterValue s)).
Proof.
  intros Hs. rewrite updateScatterPlot_svg_scale.
  eapply Forall_impl; [apply (reconcile_styled h _ _ _ Hs)|]. by intros c [Hc _].
Qed.

Lemma updateTimeDisplay_styled (h : Host) (s : state) :
  Forall fully_styled (svg s) -> Forall fully_styled (svg (updateTimeDisplay h s)).
Proof.
  intros Hs. unfold updateTimeDisplay. destruct (timeSlider s) as [value|]; [|done].
  destruct (decide (value = -1));
    destruct (bool_decide _ || bool_decide _); try done;
    by apply updateScatterPlot_styled.
Qed.

Lemma updatePositions_styled (h : Host) (dom : list circle) :
  Forall fully_styled dom -> Forall fully_styled (updatePositions h dom).
Proof.
  intros Hs. unfold updatePositions. apply Forall_map.
  eapply Forall_impl; [exact Hs|].
  intros c (H1 & H2 & H3 & H4 & H5 & H6 & _). unfold fully_styled. simpl.
  repeat split; eauto.
Qed.

Lemma step_styled (h : Host) (e : event) (ps : phase * state) :
  Forall fully_styled (svg ps.2) -> Forall fully_styled (svg (step h e ps).2).
Proof.
  destruct ps as [p s]. intros Hs.
  destruct e; destruct p; simpl in *; try done.
  all: try (by apply updateTimeDisplay_styled).
  - by apply updateTimeDisplay_styled, updateScatterPlot_styled.
  - by apply updatePositions_styled.
Qed.

Lemma updateTimeDisplay_base (h : Host) (s : state) :
  stations (updateTimeDisplay h s) = stations s
  /\ trips (updateTimeDisplay h s) = trips s
  /\ timeSlider (updateTimeDisplay h s) = timeSlider s.
Proof.
  unfold updateTimeDisplay. destruct (timeSlider s) as [value|] eqn:Hv; [|done].
  destruct (decide (value = -1));
    destruct (bool_decide _ || bool_decide _); by repeat split.
Qed.

Lemma updateScatterPlot_placed (h : Host) (timeFilterValue : Z) (s : state) :
  Forall valid_latitude (stations s) -> Forall fully_styled (svg s) ->
  Forall placed (svg (updateScatterPlot h timeFilterValue s)).
Proof.
  intros Hst Hs. rewrite updateScatterPlot_svg_scale.
  eapply Forall_impl; [apply (reconcile_styled h _ _ _ Hs)|].
  intros c (Hc & Hin & _). split; [exact Hc|].
  rewrite Forall_forall in Hst. apply Hst.
  rewrite <- (computeStationTraffic_station (stations s)
                (filterTripsByTime (trips s) timeFilterValue)).
  apply list_elem_of_In, in_map, list_elem_of_In, Hin.
Qed.

Lemma Forall_placed_styled (dom : list circle) :
  Forall placed dom -> Forall fully_styled dom.
Proof. intros H. eapply Forall_impl; [exact H|]. by intros c [Hc _]. Qed.

Lemma updateTimeDisplay_placed (h : Host) (s : state) :
  Forall valid_latitude (stations s) -> Forall placed (svg s) ->
  Forall placed (svg (updateTimeDisplay h s)).
Proof.
  intros Hst Hs. unfold updateTimeDisplay.
  destruct (timeSlider s) as [value|]; [|done].
  destruct (decide (value = -1));
    destruct (bool_decide _ || bool_decide _); try done;
    by apply updateScatterPlot_placed; [|apply Forall_placed_styled].
Qed.

Lemma step_placed (h : Host) (e : event) (ps : phase * state) :
  valid_event e ->
  Forall valid_latitude (stations ps.2) /\ Forall placed (svg ps.2) ->
  Forall valid_latitude (stations (step h e ps).2)
  /\ Forall placed (svg (step h e ps).2).
Proof.
  destruct ps as [p s]. intros He [Hst Hs].
  destruct e; destruct p; simpl in *; try done.
  all: try (destruct (updateTimeDisplay_base h (set_slider value s)) as (-> & _);
            split; [done | by apply updateTimeDisplay_placed]).
  - match goal with
    | |- context [updateTimeDisplay h ?s2] =>
        destruct (updateTimeDisplay_base h s2) as (-> & _)
    end.
    split; [done|]. apply updateTimeDisplay_placed; [done|].
    apply updateScatterPlot_placed; [done | by apply Forall_placed_styled].
  - split; [done|]. unfold updatePositions. apply Forall_map.
    eapply Forall_impl; [exact Hs|].
    intros c [(H1 & H2 & H3 & H4 & H5 & H6 & _) Hv]. split; [|exact Hv].
    unfold fully_styled. simpl. repeat split; eauto.
Qed.

(** X11. When every station feed holds only stations whose latitude
    [LngLat] accepts, then on every page the script produces from an empty
    overlay, after any sequence of slider, load and viewport events,
    every circle is fully styled: white stroke of width 1 and fill
    opacity 0.6, a radius, the flow level of its own datum, exactly one
    tooltip with the text of its own datum, and a position; and every
    circle stands for a station that [LngLat] accepts. *)
Theorem page_fully_styled (evs : list (Host * event)) (slider : option Z)
    (Hfeed : Forall (fun he => valid_event he.2) evs) :
  Forall (fun c => fully_styled c /\ valid_latitude (station (c_data c)))
         (svg (run evs (AwaitStations, initial_state slider)).2).
Proof.
  assert (forall ps,
            Forall valid_latitude (stations ps.2) /\ Forall placed (svg ps.2) ->
            Forall valid_latitude (stations (run evs ps).2)
            /\ Forall placed (svg (run evs ps).2)) as H.
  { induction Hfeed as [|[h e] evs He _ IH]; intros ps Hps; simpl; [done|].
    apply IH, step_placed; done. }
  apply H. split; constructor.
Qed.

Lemma page_fully_styled_witness :
  let evs := [(example_host, StationsLoaded example_stations);
              (example_host, SliderInput 480);
              (example_host, TripsLoaded example_trips);
              (example_host, ViewportChanged)] in
  Forall (fun he : Host * event => valid_event he.2) evs
  /\ Forall (fun c => fully_styled c /\ valid_latitude (station (c_data c)))
            (svg (run evs (AwaitStations, initial_state (Some (-1)))).2).
Proof.
  assert (Forall (fun he : Host * event => valid_event he.2)
            [(example_host, StationsLoaded example_stations);
             (example_host, SliderInput 480);
             (example_host, TripsLoaded example_trips);
             (example_host, ViewportChanged)]) as H
    by (repeat constructor; by compute).
  split; [exact H|].
  exact (page_fully_styled
           [(example_host, StationsLoaded example_stations);
            (example_host, SliderInput 480);
            (example_host, TripsLoaded example_trips);
            (example_host, ViewportChanged)] (Some (-1)) H).
Defined.

Lemma updateScatterPlot_shows (h : Host) (s : state) :
  shows_cursor (updateScatterPlot h (timeFilter s) s).
Proof.
  unfold shows_cursor. rewrite updateScatterPlot_svg_scale. apply reconcile_data.
Qed.

Lemma updateTimeDisplay_shows (h : Host) (s : state) :
  shows_cursor s -> shows_cursor (updateTimeDisplay h s).
Proof.
  intros Hs. unfold updateTimeDisplay.
  destruct (timeSlider s) as [value|] eqn:Hv; [|done].
  set (s1 := if decide (value = -1) then _ else _).
  assert (stations s1 = stations s /\ trips s1 = trips s /\ svg s1 = svg s
          /\ timeFilter s1 = value) as (Hst & Htr & Hsvg & Htf)
    by (unfold s1; by destruct (decide (value = -1))).
  destruct (bool_decide (stations s1 = [])) eqn:Hg1; simpl.
  - apply bool_decide_eq_true in Hg1. unfold shows_cursor in *.
    rewrite Hsvg, Hs, Hg1. rewrite Hst in Hg1. by rewrite Hg1.
  - destruct (bool_decide (trips s1 = [])) eqn:Hg2.
    + apply bool_decide_eq_true in Hg2. unfold shows_cursor in *.
      rewrite Hsvg, Hs, Hg2. rewrite Htr in Hg2. rewrite Hg2, Hst.
      unfold filterTripsByTime. by repeat destruct (decide _).
    + rewrite <- Htf at 1. apply updateScatterPlot_shows.
Qed.

Lemma step_shows (h : Host) (e : event) (ps : phase * state) :
  (ps.1 = Loaded -> shows_cursor ps.2) ->
  (step h e ps).1 = Loaded -> shows_cursor (step h e ps).2.
Proof.
  destruct ps as [p s]. intros Inv.
  destruct e; destruct p; simpl in *; try done; intros _.
  all: first
    [ exact (Inv eq_refl)
    | apply updateTimeDisplay_shows; exact (Inv eq_refl)
    | apply updateTimeDisplay_shows;
      exact (updateScatterPlot_shows h
               (MkState (stations s) data (timeFilter s) (radiusScale s)
                        (circles s) (svg s) (timeSlider s)
                        (selectedTimeEl s) (anyTimeLabel s)))
    | idtac ].
  unfold shows_cursor, updatePositions in *. simpl.
  rewrite map_map. simpl. exact (Inv eq_refl).
Qed.

(** X12. Once both loads have resumed, the circles always show the
    aggregation of the loaded stations and trips at the current cursor:
    after any further slider and viewport events their data are the
    annotated stations of [computeStationTraffic] over the trips filtered
    at [timeFilter], each once. *)
Theorem loaded_page_shows_cursor (evs : list (Host * event)) (slider : option Z)
    (Hloaded : (run evs (AwaitStations, initial_state slider)).1 = Loaded) :
  shows_cursor (run evs (AwaitStations, initial_state slider)).2.
Proof.
  revert Hloaded.
  apply (run_invariant (fun ps => ps.1 = Loaded -> shows_cursor ps.2)).
  - intros h e ps. apply step_shows.
  - discriminate.
Qed.

Lemma loaded_page_shows_cursor_witness :
  let evs := [(example_host, SliderInput 480);
              (example_host, StationsLoaded example_stations);
              (example_host, TripsLoaded example_trips);
              (example_host, ViewportChanged);
              (example_host, SliderInput 1200)] in
  (run evs (AwaitStations, initial_state (Some (-1)))).1 = Loaded
  /\ shows_cursor (run evs (AwaitStations, initial_state (Some (-1)))).2.
Proof.
  split; [reflexivity|].
  apply (loaded_page_shows_cursor
           [(example_host, SliderInput 480);
            (example_host, StationsLoaded example_stations);
            (example_host, TripsLoaded example_trips);
            (example_host, ViewportChanged);
            (example_host, SliderInput 1200)] (Some (-1))).
  reflexivity.
Defined.

(** X13. The two final phases are final and keep the base data: from a
    loaded page, and from an aborted one, no event changes the phase, the
    station list or the trip list. *)
Theorem final_phases_keep_base_data (evs : list (Host * event)) (s : state) :
  ((run evs (Loaded, s)).1 = Loaded
   /\ stations (run evs (Loaded, s)).2 = stations s
   /\ trips (run evs (Loaded, s)).2 = trips s)
  /\ ((run evs (Aborted, s)).1 = Aborted
      /\ stations (run evs (Aborted, s)).2 = stations s
      /\ trips (run evs (Aborted, s)).2 = trips s).
Proof.
  split.
  - apply (run_invariant (fun ps => ps.1 = Loaded /\ stations ps.2 = stations s
                                    /\ trips ps.2 = trips s)); [|done].
    intros h e [p s0] (Hp & Hst & Htr). simpl in *. subst p.
    destruct e; simpl; try done.
    destruct (updateTimeDisplay_base h (set_slider value s0)) as (-> & -> & _).
    done.
  - apply (run_invariant (fun ps => ps.1 = Aborted /\ stations ps.2 = stations s
                                    /\ trips ps.2 = trips s)); [|done].
    intros h e [p s0] (Hp & Hst & Htr). simpl in *. subst p.
    destruct e; simpl; try done.
    destruct (updateTimeDisplay_base h (set_slider value s0)) as (-> & -> & _).
    done.
Qed.

Lemma step_slider_present (h : Host) (e : event) (ps : phase * state) :
  is_Some (timeSlider ps.2) -> is_Some (timeSlider (step h e ps).2).
Proof.
  destruct ps as [p s]. intros [v Hv].
  destruct e; destruct p; simpl in *; try (by eexists).
  all: try (destruct (updateTimeDisplay_base h (set_slider value s)) as (_ & _ & ->);
            unfold set_slider; simpl; rewrite Hv; by eexists).
  destruct (updateTimeDisplay_base h
              (updateScatterPlot h (timeFilter s)
                 (MkState (stations s) data (timeFilter s) (radiusScale s)
                    (circles s) (svg s) (timeSlider s) (selectedTimeEl s)
                    (anyTimeLabel s)))) as (_ & _ & ->).
  simpl. by eexists.
Qed.

(** X14. The last slider event wins: on a page with a slider, after any
    events that end with a slider event, the cursor is the value of that
    event and the any-time label is shown exactly for the value -1. *)
Theorem last_slider_input_wins (evs : list (Host * event)) (h : Host)
    (value initial : Z) :
  let s := (run (evs ++ [(h, SliderInput value)])
                (AwaitStations, initial_state (Some initial))).2 in
  timeFilter s = value
  /\ timeSlider s = Some value
  /\ selectedTimeEl s = (if decide (value = -1) then "" else formatTime h value)
  /\ anyTimeLabel s = (if decide (value = -1) then "inline" else "none").
Proof.
  intros s. unfold s. rewrite run_snoc.
  assert (is_Some (timeSlider
                     (run evs (AwaitStations, initial_state (Some initial))).2))
    as [old Hold].
  { apply (run_invariant (fun ps => is_Some (timeSlider ps.2))).
    - intros ? ? ?. apply step_slider_present.
    - by eexists. }
  destruct (run evs _) as [p s0]. simpl in *.
  assert (timeSlider (set_slider value s0) = Some value) as Hv
    by (unfold set_slider; simpl; by rewrite Hold).
  destruct (updateTimeDisplay_cursor h (set_slider value s0) value Hv)
    as (H1 & H2 & H3).
  destruct (updateTimeDisplay_base h (set_slider value s0)) as (_ & _ & H4).
  rewrite H4. done.
Qed.

Lemma step_no_slider (h : Host) (e : event) (ps : phase * state) :
  timeSlider ps.2 = None /\ timeFilter ps.2 = -1 ->
  timeSlider (step h e ps).2 = None /\ timeFilter (step h e ps).2 = -1.
Proof.
  destruct ps as [p s]. intros [Hs Ht].
  destruct e; destruct p; simpl in *; try done.
  all: unfold updateTimeDisplay, set_slider; simpl; by rewrite Hs.
Qed.

(** X15. On a page without the slider element the cursor stays the
    sentinel for ever, and whatever was rendered was rendered without a
    time filter: the radius scale, once there, has the range [0, 25]. *)
Theorem no_slider_never_filters (evs : list (Host * event)) :
  let s := (run evs (AwaitStations, initial_state None)).2 in
  timeSlider s = None /\ timeFilter s = -1
  /\ (forall sc, radiusScale s = Some sc -> sq_range sc = (0, 25)).
Proof.
  intros s. unfold s.
  apply (run_invariant
           (fun ps => timeSlider ps.2 = None /\ timeFilter ps.2 = -1
                      /\ forall sc, radiusScale ps.2 = Some sc ->
                                    sq_range sc = (0, 25))); [|done].
  intros h e [p s0] (Hs & Ht & Hr).
  destruct (step_no_slider h e (p, s0) (conj Hs Ht)) as [Hs' Ht'].
  split; [exact Hs'|]. split; [exact Ht'|].
  simpl in *. destruct e; destruct p; simpl in *; try done.
  all: try (unfold updateTimeDisplay, set_slider; simpl; rewrite Hs; exact Hr).
  unfold updateTimeDisplay. simpl. rewrite Hs, Ht.
  intros sc. rewrite updateScatterPlot_radiusScale. by intros [= <-].
Qed.

End PageInvariants.

(** ** More on the keyed join *)

Section JoinAccounting.

Lemma index_nodes_subseteq (group : list circle) (i : nat)
    (m : gmap string (nat * circle)) :
  m ⊆ (index_nodes i group m).1.
Proof.
  revert i m. induction group as [|c group IH]; intros i m; simpl; [done|].
  destruct (m !! key_of (c_data c)) eqn:Hk.
  - specialize (IH (S i) m). by destruct (index_nodes (S i) group m).
  - specialize (IH (S i) (<[key_of (c_data c) := (i, c)]> m)).
    destruct (index_nodes (S i) group _). simpl in *.
    etrans; [by apply insert_subseteq | exact IH].
Qed.

Lemma index_nodes_size (group : list circle) (i : nat)
    (m : gmap string (nat * circle)) :
  (size (index_nodes i group m).1
   + length (List.filter (fun b : bool => b) (index_nodes i group m).2))%nat
  = (size m + length group)%nat.
Proof.
  revert i m. induction group as [|c group IH]; intros i m; simpl; [lia|].
  destruct (m !! key_of (c_data c)) eqn:Hk.
  - specialize (IH (S i) m). destruct (index_nodes (S i) group m). simpl in *. lia.
  - specialize (IH (S i) (<[key_of (c_data c) := (i, c)]> m)).
    rewrite map_size_insert_None in IH by done.
    destruct (index_nodes (S i) group _). simpl in *. lia.
Qed.

Lemma bind_data_size (data : list AnnotatedStation)
    (m : gmap string (nat * circle)) :
  size m
  = (length (List.filter is_update (bind_data data m).1)
     + size (bind_data data m).2)%nat
  /\ (bind_data data m).2 ⊆ m
  /\ length (bind_data data m).1 = length data.
Proof.
  revert m. induction data as [|d data IH]; intros m; simpl; [done|].
  destruct (m !! key_of d) as [[i node]|] eqn:Hk.
  - specialize (IH (delete (key_of d) m)).
    rewrite map_size_delete, Hk in IH. simpl in IH.
    destruct (bind_data data (delete (key_of d) m)) as [bs m']. simpl in *.
    destruct IH as (IH1 & IH2 & IH3).
    assert (size m <> 0%nat) by (apply map_size_ne_0_lookup_2 with (key_of d); eauto).
    split; [lia|]. split; [|by rewrite IH3].
    etrans; [exact IH2 | apply delete_subseteq].
  - specialize (IH m). destruct (bind_data data m) as [bs m']. simpl in *.
    destruct IH as (IH1 & IH2 & IH3). by rewrite IH3.
Qed.

(** The exit slots of the nodes from position [i0] on: the duplicates,
    and one for every key left in the index that these nodes brought. *)
Lemma exit_accounting (group : list circle) (i0 : nat)
    (m m' : gmap string (nat * circle)) :
  m' ⊆ (index_nodes i0 group m).1 ->
  length
    (List.filter (fun o : option circle => bool_decide (is_Some o))
       (imap (fun j node =>
                if nth j (index_nodes i0 group m).2 false then Some node
                else match m' !! key_of (c_data node) with
                     | Some (i', _) =>
                         if (i' =? i0 + j)%nat then Some node else None
                     | None => None
                     end)
             group))
  = (length (List.filter (fun b : bool => b) (index_nodes i0 group m).2) + size (m' ∖ m))%nat.
Proof.
  revert i0 m. induction group as [|c group IH]; intros i0 m Hsub.
  - simpl in *. assert (m' ∖ m = ∅) as ->; [|done].
    apply map_empty. intros k. apply lookup_difference_None.
    destruct (m' !! k) as [x|] eqn:Hk; [|by left].
    right. exists x. by eapply lookup_weaken.
  - simpl in Hsub |- *. destruct (m !! key_of (c_data c)) as [x|] eqn:Hk.
    + specialize (IH (S i0) m).
      destruct (index_nodes (S i0) group m) as [m1 dup]. simpl in *.
      rewrite <- (IH Hsub). do 3 f_equal.
      apply imap_ext. intros j node _. simpl.
      by replace (i0 + S j)%nat with (S (i0 + j)) by lia.
    + specialize (IH (S i0) (<[key_of (c_data c) := (i0, c)]> m)).
      pose proof (index_nodes_subseteq group (S i0)
                    (<[key_of (c_data c) := (i0, c)]> m)) as Hkeep.
      destruct (index_nodes (S i0) group _) as [m1 dup]. simpl in *.
      specialize (IH Hsub).
      assert (m1 !! key_of (c_data c) = Some (i0, c)) as Hfirst
        by (eapply lookup_weaken; [apply lookup_insert_eq | exact Hkeep]).
      rewrite <- (delete_difference m' m (key_of (c_data c)) (i0, c)) in IH.
      rewrite map_size_delete, lookup_difference, Hk in IH.
      replace (i0 + 0)%nat with i0 by lia.
      match goal with
      | |- context [imap ?f group] =>
          assert (imap f group
                  = imap (fun j node =>
                            if nth j dup false then Some node
                            else match m' !! key_of (c_data node) with
                                 | Some (i', _) =>
                                     if (i' =? S (i0 + j))%nat
                                     then Some node else None
                                 | None => None
                                 end) group) as ->
            by (apply imap_ext; intros j node _; simpl;
                by replace (i0 + S j)%nat with (S (i0 + j)) by lia)
      end.
      destruct (m' !! key_of (c_data c)) as [[i' n']|] eqn:Hk'.
      * assert (Some (i', n') = Some (i0, c)) as [= -> ->]
          by (rewrite <- Hfirst; symmetry; by eapply lookup_weaken).
        rewrite Nat.eqb_refl. simpl in *. rewrite IH.
        assert (size (m' ∖ m) <> 0%nat).
        { apply map_size_ne_0_lookup_2 with (key_of (c_data c)).
          rewrite lookup_difference, Hk, Hk'. eauto. }
        lia.
      * simpl in *. rewrite IH. lia.
Qed.

(** X16. The accounting of a join, for any circles and any data: every
    datum is either bound to a circle or enters, and every circle is
    either bound to a datum or exits. So with no data every circle
    exits, and on an empty overlay every datum enters. *)
Theorem data_join_accounting (group : list circle) (data : list AnnotatedStation) :
  (enter_size (data_join group data) + update_size (data_join group data))%nat
  = length data
  /\ (update_size (data_join group data) + exit_size (data_join group data))%nat
     = length group
  /\ length (sel_exit (data_join group data)) = length group
  /\ length (sel_bindings (data_join group data)) = length data.
Proof.
  unfold data_join, enter_size, update_size, exit_size.
  pose proof (index_nodes_size group 0 ∅) as H1.
  pose proof (fun m' => exit_accounting group 0 ∅ m') as H3.
  destruct (index_nodes 0 group ∅) as [byKey dup]. simpl in *.
  destruct (bind_data_size data byKey) as (H2 & Hsub & Hlen).
  specialize (H3 _ Hsub).
  destruct (bind_data data byKey) as [bs unbound]. simpl in *.
  rewrite map_size_empty in H1. rewrite map_difference_empty in H3.
  unfold exit_nodes. rewrite length_imap.
  split; [|split; [|done]].
  - rewrite <- Hlen. clear. induction bs as [|[]]; simpl; lia.
  - assert (length (List.filter
                      (fun b => match b with Update _ _ _ => true | Enter _ => false end)
                      bs)
            = length (List.filter is_update bs)) as ->
      by (f_equal; by apply List.filter_ext; intros []).
    rewrite H3. lia.
Qed.

Lemma index_nodes_lookup (group : list circle) (i0 : nat)
    (m : gmap string (nat * circle)) (k : string) (i : nat) (n : circle) :
  (index_nodes i0 group m).1 !! k = Some (i, n) ->
  m !! k = Some (i, n)
  \/ (group !! (i - i0)%nat = Some n /\ (i0 <= i)%nat /\ node_key n = k).
Proof.
  revert i0 m. induction group as [|c group IH]; intros i0 m; simpl; [by left|].
  destruct (m !! key_of (c_data c)) eqn:Hk.
  - specialize (IH (S i0) m). destruct (index_nodes (S i0) group m). simpl in *.
    intros H. destruct (IH H) as [?|(Hg & Hle & Hkey)]; [by left|].
    right. replace (i - i0)%nat with (S (i - S i0)) by lia. by repeat split; try lia.
  - specialize (IH (S i0) (<[key_of (c_data c) := (i0, c)]> m)).
    destruct (index_nodes (S i0) group _). simpl in *.
    intros H. destruct (IH H) as [Hm|(Hg & Hle & Hkey)].
    + destruct (decide (key_of (c_data c) = k)) as [<-|Hne].
      * rewrite lookup_insert_eq in Hm. injection Hm as <- <-.
        right. replace (i0 - i0)%nat with 0%nat by lia. by repeat split.
      * rewrite lookup_insert_ne in Hm by done. by left.
    + right. replace (i - i0)%nat with (S (i - S i0)) by lia.
      by repeat split; try lia.
Qed.

Lemma index_nodes_dom (group : list circle) (i0 : nat)
    (m : gmap string (nat * circle)) :
  dom (index_nodes i0 group m).1 = dom m ∪ list_to_set (map node_key group).
Proof.
  revert i0 m. induction group as [|c group IH]; intros i0 m; simpl; [set_solver|].
  destruct (m !! key_of (c_data c)) eqn:Hk.
  - specialize (IH (S i0) m). destruct (index_nodes (S i0) group m). simpl in *.
    rewrite IH. apply elem_of_dom_2 in Hk. fold (node_key c). set_solver.
  - specialize (IH (S i0) (<[key_of (c_data c) := (i0, c)]> m)).
    destruct (index_nodes (S i0) group _). simpl in *.
    rewrite IH, dom_insert_L. fold (node_key c). set_solver.
Qed.

Lemma bind_data_keyed (data : list AnnotatedStation)
    (m m0 : gmap string (nat * circle)) :
  NoDup (map key_of data) ->
  (forall d, d ∈ data -> m !! key_of d = m0 !! key_of d) ->
  Forall (fun b => match b with
                   | Update i node d => m0 !! key_of d = Some (i, node)
                   | Enter d => m0 !! key_of d = None
                   end)
         (bind_data data m).1.
Proof.
  revert m. induction data as [|d data IH]; intros m Hnd Hm; simpl; [constructor|].
  inversion Hnd as [|? ? Hd Hnd']; subst.
  assert (forall d', d' ∈ data -> key_of d' <> key_of d) as Hne.
  { intros d' Hd' Heq. apply Hd. rewrite <- Heq.
    apply list_elem_of_In, in_map, list_elem_of_In, Hd'. }
  pose proof (Hm d ltac:(left)) as Hhere.
  destruct (m !! key_of d) as [[i node]|] eqn:Hk.
  - specialize (IH (delete (key_of d) m) Hnd').
    destruct (bind_data data (delete (key_of d) m)) as [bs m']. simpl in *.
    constructor; [done|]. apply IH. intros d' Hd'.
    rewrite lookup_delete_ne by (symmetry; by apply Hne).
    apply Hm. by right.
  - specialize (IH m Hnd'). destruct (bind_data data m) as [bs m']. simpl in *.
    constructor; [done|]. apply IH. intros d' Hd'. apply Hm. by right.
Qed.

(** X17. The join is keyed by [short_name]. For data with pairwise
    distinct keys and any circles: a datum is bound to a circle exactly
    when some circle of the overlay carries its key, and then the circle
    it is bound to is a circle of the overlay with that key; a datum
    enters exactly when no circle carries its key. *)
Theorem data_join_keyed (group : list circle) (data : list AnnotatedStation)
    (Hdata : NoDup (map key_of data)) :
  Forall (fun b => match b with
                   | Update i node d =>
                       group !! i = Some node /\ node_key node = key_of d
                   | Enter d => key_of d ∉ map node_key group
                   end)
         (sel_bindings (data_join group data)).
Proof.
  unfold data_join.
  pose proof (index_nodes_dom group 0 ∅) as Hdom.
  pose proof (index_nodes_lookup group 0 ∅) as Hlook.
  destruct (index_nodes 0 group ∅) as [byKey dup]. simpl in *.
  pose proof (bind_data_keyed data byKey byKey Hdata ltac:(done)) as Hb.
  destruct (bind_data data byKey) as [bs unbound]. simpl in *.
  eapply Forall_impl; [exact Hb|]. intros [i node d|d] H; simpl in *.
  - destruct (Hlook _ _ _ H) as [Habs|(Hg & _ & Hkey)].
    + by rewrite lookup_empty in Habs.
    + by rewrite Nat.sub_0_r in Hg.
  - apply not_elem_of_dom in H. rewrite Hdom in H.
    intros Hin. apply H. apply elem_of_union_r, elem_of_list_to_set, Hin.
Qed.

Lemma data_join_keyed_witness :
  let group := (reconcile example_host (MkSqrtScale (0, 1) (0, 25)) []
                  [example_annotated "B" 0 0; example_annotated "A" 0 0]).2 in
  let data := [example_annotated "A" 1 0; example_annotated "C" 0 1] in
  NoDup (map key_of data)
  /\ Forall (fun b => match b with
                      | Update i node d =>
                          group !! i = Some node /\ node_key node = key_of d
                      | Enter d => key_of d ∉ map node_key group
                      end)
            (sel_bindings (data_join group data)).
Proof.
  assert (NoDup (map key_of [example_annotated "A" 1 0; example_annotated "C" 0 1]))
    as H by (apply (bool_decide_unpack _); vm_compute; exact I).
  split; [exact H|].
  exact (data_join_keyed
           (reconcile example_host (MkSqrtScale (0, 1) (0, 25)) []
              [example_annotated "B" 0 0; example_annotated "A" 0 0]).2
           [example_annotated "A" 1 0; example_annotated "C" 0 1] H).
Defined.

End JoinAccounting.

(** ** The cursor label *)

Section CursorLabel.

Lemma store_local_round_trip (h : Host) (local : Z) :
  round_trips h local -> store_local (LocalTZA h) local = Some local.
Proof.
  intros [Hclip Hback]. unfold store_local, TimeClip.
  destruct (Z.leb_spec (Z.abs (UTC (LocalTZA h) local)) 8640000000000000); [|lia].
  simpl. by rewrite Hback.
Qed.

Lemma midnight_fields (d : Z) :
  Day (d * msPerDay) = d /\ HourFromTime (d * msPerDay) = 0
  /\ SecFromTime (d * msPerDay) = 0 /\ msFromTime (d * msPerDay) = 0.
Proof.
  split; [unfold Day, msPerDay; apply Z.div_mul; lia|].
  split; [|split].
  - unfold HourFromTime, msPerDay, msPerHour.
    replace (d * 86400000) with (d * 24 * 3600000) by lia.
    rewrite Z.div_mul by lia. apply Z.mod_mul. lia.
  - unfold SecFromTime, msPerDay.
    replace (d * 86400000) with (d * 1440 * 60 * 1000) by lia.
    rewrite Z.div_mul by lia. apply Z.mod_mul. lia.
  - unfold msFromTime, msPerDay.
    replace (d * 86400000) with (d * 86400 * 1000) by lia.
    apply Z.mod_mul. lia.
Qed.

(** X18. On a day whose local midnight and whose local time [minutes]
    after midnight both exist in the host's zone (each maps to a time
    value and back to itself), the label of a cursor is the locale's
    rendering of a date whose minute of the day is the cursor modulo
    1440: a cursor in [0, 1439] is shown as itself, and the cursor 1440
    is shown as midnight. *)
Theorem formatTime_label (h : Host) (t minutes : Z)
    (Hnow : now h = MkDate (Some t))
    (Hmidnight : round_trips h (Day t * msPerDay))
    (Hminutes : round_trips h ((Day t * 1440 + minutes) * msPerMinute)) :
  exists date,
    formatTime h minutes = toLocaleTimeString h date
    /\ minutesSinceMidnight date = Some (minutes mod 1440)
    /\ (0 <= minutes <= 1439 -> minutesSinceMidnight date = Some minutes).
Proof.
  unfold formatTime. rewrite Hnow. unfold setHours at 1. simpl.
  assert (MakeDate (Day t) (MakeTime 0 0 0 0) = Day t * msPerDay) as ->
    by (unfold MakeDate, MakeTime; lia).
  rewrite (store_local_round_trip h _ Hmidnight).
  unfold setMinutes. simpl.
  destruct (midnight_fields (Day t)) as (-> & -> & -> & ->).
  assert (MakeDate (Day t) (MakeTime 0 minutes 0 0)
          = (Day t * 1440 + minutes) * msPerMinute) as ->
    by (unfold MakeDate, MakeTime, msPerDay, msPerHour, msPerMinute; lia).
  rewrite (store_local_round_trip h _ Hminutes).
  eexists. split; [reflexivity|].
  assert (minutesSinceMidnight
            (MkDate (Some ((Day t * 1440 + minutes) * msPerMinute)))
          = Some (minutes mod 1440)) as Hm.
  { rewrite minutesSinceMidnight_valid. f_equal.
    set (x := Day t * 1440 + minutes).
    unfold HourFromTime, MinFromTime, msPerHour, msPerMinute.
    rewrite Z.div_mul by lia.
    replace 3600000 with (60 * 60000) by lia.
    rewrite Z.div_mul_cancel_r by lia.
    assert (minutes mod 1440 = x mod (60 * 24)) as ->.
    { unfold x. replace (Day t * 1440 + minutes) with (minutes + Day t * 1440) by lia.
      by rewrite Z.mod_add by lia. }
    rewrite Z.rem_mul_r by lia. lia. }
  split; [exact Hm|]. intros Hr. rewrite Hm. f_equal. by apply Z.mod_small; lia.
Qed.

Lemma formatTime_label_witness :
  now example_host = MkDate (Some 0)
  /\ round_trips example_host (Day 0 * msPerDay)
  /\ round_trips example_host ((Day 0 * 1440 + 1440) * msPerMinute)
  /\ exists date,
       formatTime example_host 1440 = toLocaleTimeString example_host date
       /\ minutesSinceMidnight date = Some (1440 mod 1440)
       /\ (0 <= 1440 <= 1439 -> minutesSinceMidnight date = Some 1440).
Proof.
  assert (round_trips example_host (Day 0 * msPerDay)) as H1
    by (split; [by compute | reflexivity]).
  assert (round_trips example_host ((Day 0 * 1440 + 1440) * msPerMinute)) as H2
    by (split; [by compute | reflexivity]).
  split; [reflexivity|]. split; [exact H1|]. split; [exact H2|].
  exact (formatTime_label example_host 0 1440 eq_refl H1 H2).
Defined.

(** On the day the clocks move from 02:00 to 03:00, the local time 02:30
    does not exist: the cursor 150 is labelled as minute 210 (03:30),
    while cursors before and after the gap are labelled as themselves. *)
Example formatTime_dst_start :
  formatTime dst_start_host 150 = "210"
  /\ formatTime dst_start_host 60 = "60"
  /\ formatTime dst_start_host 480 = "480"
  /\ ~ round_trips dst_start_host
        ((Day (19792 * msPerDay + 10 * msPerHour) * 1440 + 150) * msPerMinute).
Proof.
  split; [vm_compute; reflexivity|]. split; [vm_compute; reflexivity|].
  split; [vm_compute; reflexivity|].
  intros [_ H]. vm_compute in H. discriminate.
Qed.

End CursorLabel.
